(** * go-ssz: the SSZ decoder (decode.go) and the chunk/Merkle helpers of the
      experiment package, embedded as executable Rocq definitions.

    Conventions of the embedding.
    - A Go call returning [(T, error)] becomes a [result T]: [Ok] when the
      error is nil, [Err] when it is not, [Panic] for a run-time panic and
      [Timeout] when a loop is still running after the step budget.
    - A [[]byte] is a [bytes]: the visible elements and the rest of the
      backing array up to the capacity, so that slice expressions panic
      exactly when Go's do.
    - A [reflect.Value] that a decoder writes through is passed in and
      handed back: a decoder maps the old value of the slot to the new one.
    - Go [int] lengths and indices are [nat] (they are bounded by the size of
      the input and never wrap); decoded unsigned integers are [Z]. *)

Set Warnings "-register-all".
From Stdlib Require Import ZArith Lia.
From Stdlib Require Import Strings.Byte.
From stdpp Require Import base list strings.

Local Open Scope Z_scope.

(** ** Types, kinds and errors *)

(** The part of [reflect.Type] the decoder looks at. [TOther] stands for
    every type whose kind the switch of [makeDecoder] sends to [default]. *)
Inductive rtype : Type :=
| TBool | TUint8 | TUint16 | TUint32 | TInt32 | TUint64
| TSlice (elem : rtype)
| TArray (n : nat) (elem : rtype)
| TStruct (fields : list rtype)
| TPtr (elem : rtype)
| TOther.

Inductive Kind : Type :=
| KBool | KUint8 | KUint16 | KUint32 | KInt32 | KUint64
| KSlice | KArray | KStruct | KPtr | KOther.

Definition Kind_of (t : rtype) : Kind :=
  match t with
  | TBool => KBool | TUint8 => KUint8 | TUint16 => KUint16
  | TUint32 => KUint32 | TInt32 => KInt32 | TUint64 => KUint64
  | TSlice _ => KSlice | TArray _ _ => KArray | TStruct _ => KStruct
  | TPtr _ => KPtr | TOther => KOther
  end.

Definition Kind_eqb (a b : Kind) : bool :=
  match a, b with
  | KBool, KBool | KUint8, KUint8 | KUint16, KUint16 | KUint32, KUint32
  | KInt32, KInt32 | KUint64, KUint64 | KSlice, KSlice | KArray, KArray
  | KStruct, KStruct | KPtr, KPtr | KOther, KOther => true
  | _, _ => false
  end.

(** [typ.Elem()]; reflect panics on a type without elements. *)
Definition Elem (t : rtype) : option rtype :=
  match t with
  | TSlice e | TArray _ e | TPtr e => Some e
  | _ => None
  end.

(** Go [error] values, kept as the call that built them: the format string
    of the source and its argument. *)
Inductive error : Type :=
| errors_New (text : string)
| Errorf_v (format : string) (e : error)
| Errorf_d (format : string) (n : N)
| Errorf_T (format : string) (t : rtype)
| newDecodeError (msg : message) (t : option rtype)
with message : Type :=
| msg_text (s : string)
| fmt_Sprint (e : error).

Inductive panic : Type :=
| index_out_of_range
| slice_bounds_out_of_range
| integer_divide_by_zero
| reflect_kind (method : string)
| panic_in (callee : string).

Inductive result (A : Type) : Type :=
| Ok (a : A)
| Err (e : error)
| Panic (p : panic)
| Timeout.

Arguments Ok {A} a.
Arguments Err {A} e.
Arguments Panic {A} p.
Arguments Timeout {A}.

(** Sequencing: the first call that does not return normally ends the
    function. Used through stdpp's [x ← r; k]. *)
#[global] Instance result_bind : MBind result := fun A B k r =>
  match r with
  | Ok a => k a
  | Err e => Err e
  | Panic p => Panic p
  | Timeout => Timeout
  end.

(** ** Byte slices *)

#[global] Instance byte_eq_dec : EqDecision byte := Byte.byte_eq_dec.
#[global] Instance byte_inhabited : Inhabited byte := populate x00.

Record bytes : Type := mkBytes {
  data : list byte;   (* input[0], ..., input[len-1] *)
  spare : list byte   (* the backing array from len up to cap *)
}.

Definition len (s : bytes) : nat := length (data s).
Definition cap (s : bytes) : nat := length (data s ++ spare s).

(** [s[i]] *)
Definition at_index (s : bytes) (i : nat) : result byte :=
  match data s !! i with
  | Some b => Ok b
  | None => Panic index_out_of_range
  end.

(** [s[lo:hi]]: legal when [lo <= hi <= cap(s)]. *)
Definition reslice (s : bytes) (lo hi : nat) : result bytes :=
  if decide (lo <= hi /\ hi <= cap s)%nat
  then Ok {| data := take (hi - lo) (drop lo (data s ++ spare s));
             spare := drop hi (data s ++ spare s) |}
  else Panic slice_bounds_out_of_range.

(** [copy(dst, src)] on a destination of fixed length: the first
    [min(len dst, len src)] elements are overwritten. *)
Definition copy {A} (dst src : list A) : list A :=
  take (length dst) src ++ drop (length src) dst.

(** [make([]byte, n)] *)
Definition make (n : nat) : list byte := replicate n x00.

Definition u64 (b : byte) : Z := Z.of_N (Byte.to_N b).

(** [encoding/binary]: [LittleEndian.Uint16], [Uint32], [Uint64]. *)
Definition LittleEndian_Uint16 (b : list byte) : Z :=
  Z.lor (u64 (b !!! 0%nat)) (Z.shiftl (u64 (b !!! 1%nat)) 8).

Definition LittleEndian_Uint32 (b : list byte) : Z :=
  Z.lor (Z.lor (Z.lor
    (u64 (b !!! 0%nat))
    (Z.shiftl (u64 (b !!! 1%nat)) 8))
    (Z.shiftl (u64 (b !!! 2%nat)) 16))
    (Z.shiftl (u64 (b !!! 3%nat)) 24).

Definition LittleEndian_Uint64 (b : list byte) : Z :=
  Z.lor (Z.lor (Z.lor (Z.lor (Z.lor (Z.lor (Z.lor
    (u64 (b !!! 0%nat))
    (Z.shiftl (u64 (b !!! 1%nat)) 8))
    (Z.shiftl (u64 (b !!! 2%nat)) 16))
    (Z.shiftl (u64 (b !!! 3%nat)) 24))
    (Z.shiftl (u64 (b !!! 4%nat)) 32))
    (Z.shiftl (u64 (b !!! 5%nat)) 40))
    (Z.shiftl (u64 (b !!! 6%nat)) 48))
    (Z.shiftl (u64 (b !!! 7%nat)) 56).

(** ** reflect.Value *)

Inductive value : Type :=
| VBool (b : bool)
| VUint (width : Z) (n : Z)          (* uint8, uint16, uint32, uint64 *)
| VInt32 (n : Z)
| VSlice (xs : list value)
| VArray (xs : list value)
| VStruct (fs : list value)
| VPtr (p : option value)            (* None: the nil pointer *)
| VOther.

(** [reflect.Zero(t)] *)
Fixpoint zero (t : rtype) : value :=
  match t with
  | TBool => VBool false
  | TUint8 => VUint 8 0
  | TUint16 => VUint 16 0
  | TUint32 => VUint 32 0
  | TInt32 => VInt32 0
  | TUint64 => VUint 64 0
  | TSlice _ => VSlice []
  | TArray n e => VArray (replicate n (zero e))
  | TStruct fs => VStruct (map zero fs)
  | TPtr _ => VPtr None
  | TOther => VOther
  end.

(** The setters of reflect panic on a value of another kind. *)
Definition SetBool (v : value) (b : bool) : result value :=
  match v with
  | VBool _ => Ok (VBool b)
  | _ => Panic (reflect_kind "reflect.Value.SetBool")
  end.

(** [SetUint] stores the argument converted to the width of the slot. *)
Definition SetUint (v : value) (x : Z) : result value :=
  match v with
  | VUint w _ => Ok (VUint w (x mod 2 ^ w))
  | _ => Panic (reflect_kind "reflect.Value.SetUint")
  end.

Definition SetBytes (v : value) (b : bytes) : result value :=
  match v with
  | VSlice _ => Ok (VSlice (VUint 8 ∘ u64 <$> data b))
  | _ => Panic (reflect_kind "reflect.Value.SetBytes")
  end.

(** [val.Len()] of a slice or an array. *)
Definition Len (v : value) : result nat :=
  match v with
  | VSlice xs | VArray xs => Ok (length xs)
  | _ => Panic (reflect_kind "reflect.Value.Len")
  end.

(** [val.Index(i)] *)
Definition Index (v : value) (i : nat) : result value :=
  match v with
  | VSlice xs | VArray xs =>
      match xs !! i with
      | Some x => Ok x
      | None => Panic (reflect_kind "reflect: slice index out of range")
      end
  | _ => Panic (reflect_kind "reflect.Value.Index")
  end.

(** Writing through [val.Index(i)]; only used after [Index] succeeded. *)
Definition SetIndex (v : value) (i : nat) (x : value) : value :=
  match v with
  | VSlice xs => VSlice (<[i := x]> xs)
  | VArray xs => VArray (<[i := x]> xs)
  | _ => v
  end.

(** [val.Field(i)] *)
Definition Field (v : value) (i : nat) : result value :=
  match v with
  | VStruct fs =>
      match fs !! i with
      | Some x => Ok x
      | None => Panic (reflect_kind "reflect: Field index out of range")
      end
  | _ => Panic (reflect_kind "reflect.Value.Field")
  end.

Definition SetField (v : value) (i : nat) (x : value) : value :=
  match v with
  | VStruct fs => VStruct (<[i := x]> fs)
  | _ => v
  end.

(** [newVal := reflect.MakeSlice(val.Type(), size, size);
     reflect.Copy(newVal, val); val.Set(newVal)] for a slice of [elem]. *)
Definition MakeSlice_Copy (elem : rtype) (size : nat) (v : value) : result value :=
  match v with
  | VSlice xs => Ok (VSlice (copy (replicate size (zero elem)) xs))
  | _ => Panic (reflect_kind "reflect.MakeSlice of non-slice type")
  end.

(** ** decode.go: the decoders of the basic types *)

Definition decoder : Type := bytes -> value -> result (nat * value).

Definition decodeBool : decoder := fun input val =>
  b ← at_index input 0;
  let v := Byte.to_N b in
  if (v =? 0)%N then
    val ← SetBool val false; Ok (1%nat, val)
  else if (v =? 1)%N then
    val ← SetBool val true; Ok (1%nat, val)
  else
    Err (Errorf_d "expect 0 or 1 for decoding bool but got %d" v).

Definition decodeUint8 : decoder := fun input val =>
  b ← at_index input 0;
  val ← SetUint val (u64 b);
  Ok (1%nat, val).

Definition decodeUint16 : decoder := fun input val =>
  let buf := make 2 in
  let buf := copy buf (data input) in
  val ← SetUint val (LittleEndian_Uint16 buf);
  Ok (2%nat, val).

Definition decodeUint32 : decoder := fun input val =>
  let buf := make 4 in
  let buf := copy buf (data input) in
  val ← SetUint val (LittleEndian_Uint32 buf);
  Ok (4%nat, val).

Definition decodeUint64 : decoder := fun input val =>
  let buf := make 8 in
  let buf := copy buf (data input) in
  val ← SetUint val (LittleEndian_Uint64 buf);
  Ok (8%nat, val).

Definition decodeByteArray : decoder := fun input val =>
  match val with
  | VArray xs =>
      Ok (len input, VArray (copy xs (VUint 8 ∘ u64 <$> data input)))
  | _ => Panic (reflect_kind "reflect.Value.Slice")
  end.

Definition decodeByteSlice : decoder := fun input val =>
  val ← SetBytes val input;
  Ok (len input, val).

(** ** decode.go: the decoders of the composite types *)

(** [if err != nil { return 0, fmt.Errorf(format, err) }] *)
Definition wrap {A} (format : string) (r : result A) : result A :=
  match r with
  | Err err => Err (Errorf_v format err)
  | _ => r
  end.

(** Modelled from the spec: the constant is declared in a file that is not
    among the sources; section 4.2 gives [BYTES_PER_LENGTH_OFFSET = 4]. *)
Definition BytesPerLengthOffset : nat := 4.

(** One entry of [structFields(typ)]. *)
Record field : Type := mkField {
  index : nat;
  ftype : rtype;
  sszUtils_decoder : decoder
}.

Section Decoders.

(** Helpers of the package declared outside decode.go. The decoders are
    verified for every choice of them. *)
Variable isBasicType : Kind -> bool.
Variable basicElementSize : rtype -> Kind -> nat.

(** The number of iterations granted to each loop. *)
Variable fuel : nat.

(** The loop of [makeBasicSliceDecoder]:
    [for ; i < len(input); i += elemSize]. *)
Fixpoint basicSliceLoop (elemDecoder : decoder) (elemSize : nat)
    (input : bytes) (steps : nat) (i elementIndex decodeSize : nat)
    (val : value) : result (nat * value) :=
  if decide (i < len input)%nat then
    match steps with
    | O => Timeout
    | S steps =>
        chunk ← reslice input i (i + elemSize);
        slot ← Index val elementIndex;
        '(elemDecodeSize, slot) ←
           wrap "failed to decode element of slice: %v"
                (elemDecoder chunk slot);
        basicSliceLoop elemDecoder elemSize input steps
          (i + elemSize) (S elementIndex) (decodeSize + elemDecodeSize)
          (SetIndex val elementIndex slot)
    end
  else Ok (decodeSize, val).

Definition makeBasicSliceDecoder (elemType : rtype)
    (elemSSZUtils : result decoder) : result decoder :=
  elemDecoder ← elemSSZUtils;
  Ok (fun input val =>
    let elemSize := basicElementSize elemType (Kind_of elemType) in
    if decide (elemSize = 0%nat) then Panic integer_divide_by_zero else
    let size := (len input / elemSize)%nat in
    val ← MakeSlice_Copy elemType size val;
    '(decodeSize, val) ←
       basicSliceLoop elemDecoder elemSize input fuel 0 0 0 val;
    if decide (decodeSize < size)%nat
    then Err (errors_New "input is too long")
    else Ok (size, val)).

(** The loop of [makeCompositeSliceDecoder]. Its body changes none of
    [currentIndex], [firstOffset] and [currentOffset]. *)
Fixpoint offsetLoop (input : bytes) (steps : nat)
    (currentIndex firstOffset currentOffset : Z) : result unit :=
  if currentIndex <? firstOffset then
    match steps with
    | O => Timeout
    | S steps =>
        if currentOffset >? Z.of_nat (len input)
        then Err (errors_New "offset out of bounds")
        else offsetLoop input steps currentIndex firstOffset currentOffset
    end
  else Ok tt.

(** [makeCompositeSliceDecoder] from the declaration of [currentOffset]
    on, for the value [firstOffset] has after the call of the element
    decoder. *)
Definition compositeSliceTail (input : bytes) (size : nat) (val : value)
    (firstOffset : Z) : result (nat * value) :=
  let currentIndex := 0 in
  let currentOffset := firstOffset in
  _ ← offsetLoop input fuel currentIndex firstOffset currentOffset;
  Ok (size, val).

(** The element decoder is called on [input[:BytesPerLengthOffset]] with
    the local [firstOffset] as its target. The local is an argument passed
    by value: whatever the callee does with it, [firstOffset] is still 0
    afterwards. ([nextIndex] and [nextOffset] are never read.) *)
Definition makeCompositeSliceDecoder (elemType : rtype)
    (elemSSZUtils : result decoder) : result decoder :=
  elemDecoder ← elemSSZUtils;
  Ok (fun input val =>
    let elemSize := BytesPerLengthOffset in
    let size := (len input / elemSize)%nat in
    val ← MakeSlice_Copy elemType size val;
    let firstOffset := 0 in
    head ← reslice input 0 BytesPerLengthOffset;
    _ ← elemDecoder head (VUint 64 firstOffset);
    compositeSliceTail input size val firstOffset).

(** The loop of [makeArrayDecoder], [for ; i < size; i++], by recursion on
    the number [size - i] of iterations left. *)
Fixpoint arrayLoop (elemDecoder : decoder) (elemSize : nat)
    (input : bytes) (remaining : nat) (i decodeSize offsetIndex : nat)
    (val : value) : result (nat * value) :=
  match remaining with
  | O => Ok (decodeSize, val)
  | S remaining =>
      chunk ← reslice input offsetIndex (offsetIndex + elemSize);
      slot ← Index val i;
      '(elemDecodeSize, slot) ←
         wrap "failed to decode element of slice: %v"
              (elemDecoder chunk slot);
      arrayLoop elemDecoder elemSize input remaining
        (S i) (decodeSize + elemDecodeSize) (offsetIndex + elemSize)
        (SetIndex val i slot)
  end.

Definition makeArrayDecoder (typ elemType : rtype)
    (elemSSZUtils : result decoder) : result decoder :=
  elemDecoder ← elemSSZUtils;
  Ok (fun input val =>
    size ← Len val;
    let elemSize := basicElementSize typ (Kind_of elemType) in
    '(decodeSize, val) ←
       arrayLoop elemDecoder elemSize input size 0 0 0 val;
    if decide (decodeSize < size)%nat
    then Err (errors_New "input is too long")
    else Ok (decodeSize, val)).

(** The loop of [makeStructDecoder], [for ; i < len(fields); i++], by
    recursion on the fields left; it hands back the final [i]. *)
Fixpoint structLoop (input : bytes) (rest : list field)
    (i offsetIndex : nat) (val : value) : result (nat * nat * value) :=
  match rest with
  | [] => Ok (i, offsetIndex, val)
  | f :: rest =>
      _ ← Field val (index f);
      let elemSize := basicElementSize (ftype f) (Kind_of (ftype f)) in
      chunk ← reslice input offsetIndex (offsetIndex + elemSize);
      slot ← Field val (index f);
      '(fieldDecodeSize, slot) ←
         wrap "failed to decode field of slice: %v"
              (sszUtils_decoder f chunk slot);
      structLoop input rest (S i) (offsetIndex + fieldDecodeSize)
        (SetField val (index f) slot)
  end.

Definition makeStructDecoder (structFields : result (list field))
    : result decoder :=
  fields ← structFields;
  Ok (fun input val =>
    let size := len input in
    if decide (size = 0%nat) then Ok (0%nat, val) else
    '(i, offsetIndex, val) ← structLoop input fields 0 0 val;
    if decide (i < length fields)%nat
    then Err (errors_New "input is too short")
    else Ok (offsetIndex, val)).

(** [reflect.New(elemType)] is decoded into and then dropped: [val] is
    never set. *)
Definition makePtrDecoder (elemType : rtype)
    (elemSSZUtils : result decoder) : result decoder :=
  elemDecoder ← elemSSZUtils;
  Ok (fun input val =>
    let newVal := zero elemType in
    '(elemDecodeSize, _) ←
       wrap "failed to decode to object pointed by pointer: %v"
            (elemDecoder input newVal);
    Ok (elemDecodeSize, val)).

(** [makeDecoder]. The cases of the switch are tried in the order of the
    source. Modelled from the spec: [cachedSSZUtilsNoAcquireLock] and
    [structFields] belong to the schema cache, which is not among the
    sources; by section 4.1 the cache memoizes the codec of a type, so the
    decoder of an element or field type is [makeDecoder] of that type, and
    the fields of a container are all its fields in declared order. *)
Fixpoint makeDecoder (typ : rtype) : result decoder :=
  match typ with
  | TBool => Ok decodeBool
  | TUint8 => Ok decodeUint8
  | TUint16 => Ok decodeUint16
  | TUint32 => Ok decodeUint32
  | TInt32 => Ok decodeUint32
  | TUint64 => Ok decodeUint64
  | TSlice elem =>
      if Kind_eqb (Kind_of elem) KUint8 then Ok decodeByteSlice
      else if isBasicType (Kind_of elem)
      then makeBasicSliceDecoder elem (makeDecoder elem)
      else makeCompositeSliceDecoder elem (makeDecoder elem)
  | TArray _ elem =>
      if Kind_eqb (Kind_of elem) KUint8 then Ok decodeByteArray
      else makeArrayDecoder typ elem (makeDecoder elem)
  | TStruct fields =>
      makeStructDecoder
        ((fix structFields (i : nat) (fs : list rtype) :=
            match fs with
            | [] => Ok []
            | t :: fs =>
                dec ← makeDecoder t;
                rest ← structFields (S i) fs;
                Ok (mkField i t dec :: rest)
            end) 0%nat fields)
  | TPtr elem => makePtrDecoder elem (makeDecoder elem)
  | TOther => Err (Errorf_T "type %v is not deserializable" typ)
  end.

(** The schema cache, [cachedSSZUtils(typ)], as [Decode] sees it: it hands
    back the decoder of the type or an error. *)
Variable cachedSSZUtils : rtype -> result decoder.

(** [Decode(input, val)]. The interface value [val] is [None] when it is
    nil and otherwise its dynamic type and value; [Ok v] is the nil error
    together with the new content [v] of the object pointed to. *)
Definition Decode (input : bytes) (val : option (rtype * value))
    : result value :=
  match val with
  | None => Err (newDecodeError (msg_text "cannot decode into nil") None)
  | Some (rtyp, rval) =>
      if negb (Kind_eqb (Kind_of rtyp) KPtr) then
        Err (newDecodeError
               (msg_text "can only decode into pointer target") (Some rtyp))
      else
        match rval, Elem rtyp with
        | VPtr (Some target), Some elemType =>
            match cachedSSZUtils elemType with
            | Err err =>
                Err (newDecodeError (fmt_Sprint err) (Some elemType))
            | Ok sszUtils_decoder =>
                match sszUtils_decoder input target with
                | Err err =>
                    Err (newDecodeError (fmt_Sprint err) (Some elemType))
                | r => '(_, target) ← r; Ok target
                end
            | Panic p => Panic p
            | Timeout => Timeout
            end
        | VPtr None, _ =>
            Err (newDecodeError
                   (msg_text "cannot output to pointer of nil") (Some rtyp))
        | _, _ => Panic (reflect_kind "reflect.Value.IsNil")
        end
  end.

End Decoders.

(** ** The experiment package: chunks and Merkle roots *)

Definition BytesPerChunk : nat := 32.

(** [var root [32]byte; copy(root[:], chunk)] *)
Definition toRoot (chunk : list byte) : list byte :=
  copy (make 32) chunk.

Definition isPowerOf2 (n : Z) : bool :=
  negb (n =? 0) && (Z.land n (n - 1) =? 0).

Section Merkle.

(** [sha256.Sum256], and [merkle.Merkleize] of the zssz library, which
    hands back a root unless it panics. *)
Variable hash : list byte -> list byte.
Variable Merkleize :
  (list byte -> list byte) -> Z -> Z -> (Z -> option (list byte)) ->
  option (list byte).

(** The number of iterations granted to each loop. *)
Variable fuel : nat.

Definition bitwiseMerkleize (chunks : list (list byte)) (count limit : Z)
    : result (list byte) :=
  if count >? limit then
    Err (errors_New "merkleizing list that is too large, over limit")
  else
    let hasher := hash in
    let leafIndexer := fun i : Z => chunks !! Z.to_nat i in
    match Merkleize hasher count limit leafIndexer with
    | Some root => Ok root
    | None => Panic (panic_in "merkle.Merkleize")
    end.

(** The second loop of [pack]: [for i := 0; i < numItems; i += BytesPerChunk]. *)
Fixpoint packLoop (orderedItems : list byte) (steps : nat) (i : nat)
    (chunks : list (list byte)) : result (list (list byte)) :=
  let numItems := length orderedItems in
  if decide (i < numItems)%nat then
    match steps with
    | O => Timeout
    | S steps =>
        let j := (i + BytesPerChunk)%nat in
        let j := if decide (numItems < j)%nat then numItems else j in
        packLoop orderedItems steps (i + BytesPerChunk)
          (chunks ++ [take (j - i) (drop i orderedItems)])
    end
  else Ok chunks.

(** [for len(lastChunk) < BytesPerChunk { lastChunk = append(lastChunk, 0) }] *)
Fixpoint padLoop (steps : nat) (lastChunk : list byte)
    : result (list byte) :=
  if decide (length lastChunk < BytesPerChunk)%nat then
    match steps with
    | O => Timeout
    | S steps => padLoop steps (lastChunk ++ [x00])
    end
  else Ok lastChunk.

Definition pack (serializedItems : list (list byte))
    : result (list (list byte)) :=
  let areAllEmpty :=
    forallb (fun item => bool_decide (item = [])) serializedItems in
  if bool_decide (length serializedItems = 0%nat) || areAllEmpty then
    let emptyChunk := make BytesPerChunk in
    Ok [emptyChunk]
  else if bool_decide
            (length (serializedItems !!! 0%nat) = BytesPerChunk) then
    Ok serializedItems
  else
    let orderedItems := concat serializedItems in
    chunks ← packLoop orderedItems fuel 0 [];
    match chunks !! (length chunks - 1)%nat with
    | None => Panic index_out_of_range
    | Some lastChunk =>
        lastChunk ← padLoop fuel lastChunk;
        Ok (<[(length chunks - 1)%nat := lastChunk]> chunks)
    end.

(** [for !isPowerOf2(len(chunks)) { chunks = append(chunks, make([]byte, 32)) }] *)
Fixpoint growLoop (steps : nat) (chunks : list (list byte))
    : result (list (list byte)) :=
  if isPowerOf2 (Z.of_nat (length chunks)) then Ok chunks
  else
    match steps with
    | O => Timeout
    | S steps => growLoop steps (chunks ++ [make BytesPerChunk])
    end.

(** The inner loop of [merkleize], [for i := 0; i < len(hashLayer); i += 2],
    on the part of [hashLayer] from index [i] on. *)
Fixpoint hashPairs (hashLayer : list (list byte))
    : result (list (list byte)) :=
  match hashLayer with
  | [] => Ok []
  | [_] => Panic index_out_of_range
  | lhs :: rhs :: hashLayer =>
      let hashedChunk := hash (lhs ++ rhs) in
      layer ← hashPairs hashLayer;
      Ok (hashedChunk :: layer)
  end.

(** [for len(hashLayer) > 1] *)
Fixpoint layerLoop (steps : nat) (hashLayer : list (list byte))
    : result (list (list byte)) :=
  if decide (1 < length hashLayer)%nat then
    match steps with
    | O => Timeout
    | S steps =>
        layer ← hashPairs hashLayer;
        layerLoop steps layer
    end
  else Ok hashLayer.

Definition merkleize (chunks : list (list byte)) : result (list byte) :=
  if decide (length chunks = 1%nat) then
    Ok (toRoot (chunks !!! 0%nat))
  else
    chunks ← growLoop fuel chunks;
    hashLayer ← layerLoop fuel chunks;
    match hashLayer !! 0%nat with
    | Some top => Ok (toRoot top)
    | None => Panic index_out_of_range
    end.

End Merkle.

(** ** Reference definitions *)

(** The value of a byte string read as a little-endian number. *)
Definition le_uint (b : list byte) : Z :=
  foldr (fun x acc => u64 x + 256 * acc) 0 b.

(** Modelled from the spec: the encoder is not among the sources. Section 3
    has Uint64 as 8 bytes, little-endian (scenario S1 of section 8:
    [encode(0x0102030405060708, Uint64) = [08,07,06,05,04,03,02,01]]). *)
Definition encodeUint64 (v : Z) : list byte :=
  (fun i : nat =>
     default x00 (Byte.of_N (Z.to_N (Z.land (Z.shiftr v (8 * Z.of_nat i)) 255))))
  <$> seq 0 8.

(** Modelled from the spec: [isBasicType] and [basicElementSize] are
    declared in a file that is not among the sources. By section 3 the basic
    types are Boolean and Uint{N}, a Boolean takes one byte and a Uint{N}
    takes N/8 bytes; by section 4.2 every other member is given the 4 bytes
    of an offset slot. The theorems below hold for every choice of the two
    helpers; these instances serve where a concrete run is evaluated. *)
Definition specIsBasicType (k : Kind) : bool :=
  match k with
  | KBool | KUint8 | KUint16 | KUint32 | KUint64 => true
  | _ => false
  end.

Definition specBasicElementSize (_ : rtype) (k : Kind) : nat :=
  match k with
  | KBool | KUint8 => 1
  | KUint16 => 2
  | KUint32 | KInt32 => 4
  | KUint64 => 8
  | _ => BytesPerLengthOffset
  end.

(** [pack] in the words of section 4.4: the runs are flattened, the bytes cut
    into chunks of 32, the final chunk padded with zeros on the right; when
    there is no byte at all the result is one all-zero chunk. [n] bounds the
    number of chunks. *)
Fixpoint chunks_of (n : nat) (flat : list byte) : list (list byte) :=
  match n with
  | O => []
  | S n =>
      match flat with
      | [] => []
      | _ =>
          let chunk := take 32 flat in
          (chunk ++ replicate (32 - length chunk) x00)
            :: chunks_of n (drop 32 flat)
      end
  end.

(** The same cut without the padding, as the second loop of [pack] has it
    before its last chunk is padded. *)
Fixpoint raw_chunks (n : nat) (flat : list byte) : list (list byte) :=
  match n with
  | O => []
  | S n =>
      match flat with
      | [] => []
      | _ => take 32 flat :: raw_chunks n (drop 32 flat)
      end
  end.

Definition pack_spec (items : list (list byte)) : list (list byte) :=
  let flat := concat items in
  match flat with
  | [] => [replicate 32 x00]
  | _ => chunks_of (length flat) flat
  end.

(** The [j]-th run of [elemSize] bytes of an input. *)
Definition chunk_at (elemSize : nat) (d : list byte) (j : nat) : list byte :=
  take elemSize (drop (j * elemSize) d).

(** The ways a call ends without a result of its own: a panic, an exhausted
    step budget, or the error of a callee wrapped with [format]. *)
Definition aborted {A} (format : string) (r : result A) : Prop :=
  match r with
  | Ok _ => False
  | Err e => exists inner, e = Errorf_v format inner
  | Panic _ | Timeout => True
  end.




(** ** Proof tools *)

Ltac by_length n d :=
  match n with
  | O => idtac
  | S ?m => destruct d as [|? d]; [ | by_length m d]
  end.

(** Replaces every byte in the context by its value, bounded by [range]. *)
Ltac forget_bytes range :=
  repeat match goal with
         | b : byte |- _ =>
             pose proof (range b); generalize dependent (u64 b);
             clear b; intros
         end.

(** Turns [a | b << k] into [a + b * 2 ^ k], innermost first, with a lemma
    [add] that asks for [0 <= a < 2 ^ k]. *)
Ltac lor_to_add add :=
  repeat match goal with
         | |- context [Z.lor ?a (Z.shiftl ?b ?k)] =>
             rewrite (add a b k) by lia
         end.

(** Runs a decoder on closed input. *)
Ltac run := vm_compute; reflexivity.

(** ** Arithmetic of little-endian words *)

Lemma u64_range (b : byte) : 0 <= u64 b < 256.
Proof.
  unfold u64. pose proof (Byte.to_N_bounded b). lia.
Qed.

Lemma land_low_shiftl (a b k : Z) :
  0 <= k -> 0 <= a < 2 ^ k -> Z.land a (Z.shiftl b k) = 0.
Proof.
  intros Hk Ha. apply Z.bits_inj'. intros n Hn.
  rewrite Z.land_spec, Z.bits_0.
  destruct (Z.lt_ge_cases n k) as [Hlt | Hge].
  - rewrite (Z.shiftl_spec_low b k n Hlt). apply andb_false_r.
  - rewrite <- (Z.mod_small a (2 ^ k)) by lia.
    rewrite Z.mod_pow2_bits_high by lia. reflexivity.
Qed.

Lemma lor_shiftl_add (a b k : Z) :
  0 <= k -> 0 <= a < 2 ^ k -> Z.lor a (Z.shiftl b k) = a + b * 2 ^ k.
Proof.
  intros Hk Ha.
  rewrite <- Z.lxor_lor by (apply land_low_shiftl; assumption).
  rewrite <- Z.add_nocarry_lxor by (apply land_low_shiftl; assumption).
  rewrite Z.shiftl_mul_pow2 by assumption. reflexivity.
Qed.

(** ** decode.go: basic types *)

(** On every input, [decodeUint64] consumes "8 bytes" and stores the
    little-endian value of the first 8 bytes at most: a shorter input is
    read as if it were followed by zero bytes. *)
Lemma decodeUint64_value (input : bytes) (old : Z) :
  decodeUint64 input (VUint 64 old)
  = Ok (8%nat, VUint 64 (le_uint (take 8 (data input)))).
Proof.
  unfold decodeUint64, LittleEndian_Uint64, copy, make.
  destruct input as [d sp]; cbn [data].
  by_length 8%nat d; cbn; rewrite ?take_0; cbn [foldr];
    forget_bytes u64_range; do 3 f_equal; lor_to_add lor_shiftl_add;
    rewrite Z.mod_small by lia; lia.
Qed.

(** C9. Uint64 is decoded little-endian over 8 bytes: an input of exactly 8
    bytes yields the little-endian value of those bytes (and the decoder
    reports 8 bytes consumed). The witness is the run of scenario S1,
    [08,07,06,05,04,03,02,01] giving 0x0102030405060708. *)
Theorem decodeUint64_little_endian (input : bytes) (old : Z) :
  len input = 8%nat ->
  decodeUint64 input (VUint 64 old)
  = Ok (8%nat, VUint 64 (le_uint (data input))).
Proof.
  intros Hlen. rewrite decodeUint64_value.
  unfold len in Hlen. rewrite take_ge by lia. reflexivity.
Qed.

Lemma decodeUint64_little_endian_S1 :
  len (mkBytes [x08; x07; x06; x05; x04; x03; x02; x01] []) = 8%nat
  /\ decodeUint64 (mkBytes [x08; x07; x06; x05; x04; x03; x02; x01] [])
                  (VUint 64 0)
     = Ok (8%nat, VUint 64 0x0102030405060708).
Proof.
  split; [reflexivity | ].
  exact (decodeUint64_little_endian
           (mkBytes [x08; x07; x06; x05; x04; x03; x02; x01] []) 0 eq_refl).
Defined.

(** C7. On an input whose first byte is 0 the Boolean decoder stores false,
    on first byte 1 it stores true (one byte consumed in both cases), and on
    every other first byte it fails with the error that names the byte. *)
Theorem decodeBool_first_byte (b : byte) (rest spare : list byte)
    (old : bool) :
  decodeBool (mkBytes (b :: rest) spare) (VBool old)
  = if decide (b = x00) then Ok (1%nat, VBool false)
    else if decide (b = x01) then Ok (1%nat, VBool true)
    else Err (Errorf_d "expect 0 or 1 for decoding bool but got %d"
                (Byte.to_N b)).
Proof.
  destruct b; reflexivity.
Qed.

(** ** decode.go: the entry point *)

(** C8. [Decode] with a nil target fails with "cannot decode into nil", and
    with a target that is not a pointer it fails with "can only decode into
    pointer target"; the outcome is the same for every input and every
    schema cache, so no decoder is consulted. A nil pointer is refused in the
    same way. *)
Theorem Decode_refuses_target (cachedSSZUtils : rtype -> result decoder)
    (input : bytes) (rtyp : rtype) (rval : value) :
  Kind_of rtyp <> KPtr ->
  Decode cachedSSZUtils input None
  = Err (newDecodeError (msg_text "cannot decode into nil") None)
  /\ Decode cachedSSZUtils input (Some (rtyp, rval))
     = Err (newDecodeError (msg_text "can only decode into pointer target")
              (Some rtyp))
  /\ (forall elem,
        Decode cachedSSZUtils input (Some (TPtr elem, VPtr None))
        = Err (newDecodeError (msg_text "cannot output to pointer of nil")
                 (Some (TPtr elem)))).
Proof.
  intros Hkind. repeat split.
  unfold Decode. destruct rtyp; cbn in *; congruence.
Qed.

Lemma Decode_refuses_target_run :
  Kind_of TUint64 <> KPtr
  /\ Decode (makeDecoder specIsBasicType specBasicElementSize 0)
            (mkBytes [x01] []) None
     = Err (newDecodeError (msg_text "cannot decode into nil") None)
  /\ Decode (makeDecoder specIsBasicType specBasicElementSize 0)
            (mkBytes [x01] []) (Some (TUint64, VUint 64 0))
     = Err (newDecodeError (msg_text "can only decode into pointer target")
              (Some TUint64)).
Proof.
  assert (Hkind : Kind_of TUint64 <> KPtr) by (cbn; congruence).
  destruct (Decode_refuses_target
              (makeDecoder specIsBasicType specBasicElementSize 0)
              (mkBytes [x01] []) TUint64 (VUint 64 0) Hkind)
    as (Hnil & Hval & _).
  exact (conj Hkind (conj Hnil Hval)).
Defined.

(** ** experiment: Merkle roots *)

Lemma toRoot_chunk (c : list byte) :
  length c = 32%nat -> toRoot c = c.
Proof.
  intros Hc. unfold toRoot, copy, make.
  rewrite length_replicate, take_ge by lia.
  rewrite drop_ge by (rewrite length_replicate; lia).
  apply app_nil_r.
Qed.

(** C4. The root of a list made of one 32-byte chunk is that chunk: nothing
    is hashed, whatever the hash function and the step budget. *)
Theorem merkleize_single_chunk (hash : list byte -> list byte) (fuel : nat)
    (c : list byte) :
  length c = 32%nat ->
  merkleize hash fuel [c] = Ok c.
Proof.
  intros Hc. unfold merkleize. cbn. f_equal. apply toRoot_chunk, Hc.
Qed.

Lemma merkleize_single_chunk_run :
  length (replicate 32 xab) = 32%nat
  /\ merkleize (fun _ => []) 0 [replicate 32 xab] = Ok (replicate 32 xab).
Proof.
  split; [reflexivity | ].
  exact (merkleize_single_chunk (fun _ => []) 0 (replicate 32 xab) eq_refl).
Defined.

(** With count 1 and limit 1 the guard of [bitwiseMerkleize] lets the call
    through to [merkle.Merkleize] with the chunk as leaf 0: the root is the
    chunk as soon as the library hands back the only leaf of a tree of one
    leaf. *)
Lemma bitwiseMerkleize_single_chunk hash Merkleize (c : list byte) :
  (forall leafIndexer,
     leafIndexer 0 = Some c -> Merkleize hash 1 1 leafIndexer = Some c) ->
  bitwiseMerkleize hash Merkleize [c] 1 1 = Ok c.
Proof.
  intros Hleaf. unfold bitwiseMerkleize. cbn.
  rewrite Hleaf by reflexivity. reflexivity.
Qed.

(** C5. [bitwiseMerkleize] fails with the over-limit error exactly when
    [count > limit]; it has no other error, so with [count <= limit] it
    fails with none, and with [count > limit] it hands back no root. *)
Theorem bitwiseMerkleize_over_limit hash Merkleize
    (chunks : list (list byte)) (count limit : Z) :
  (bitwiseMerkleize hash Merkleize chunks count limit
   = Err (errors_New "merkleizing list that is too large, over limit")
   <-> limit < count)
  /\ (forall e, bitwiseMerkleize hash Merkleize chunks count limit = Err e ->
        limit < count).
Proof.
  unfold bitwiseMerkleize.
  destruct (Z.gtb_spec count limit) as [Hgt | Hle].
  - split; [split | ]; intros; [lia | reflexivity | lia].
  - destruct (Merkleize _ _ _ _); split; [split | | split | ];
      intros; try discriminate; lia.
Qed.

(** ** experiment: pack *)

(** C10. When the first run has exactly 32 bytes, [pack] hands back its
    argument as it is: the other runs are neither joined, cut nor padded,
    whatever their lengths. The witness has a second run of one byte, which
    is still one byte long in the result. *)
Theorem pack_first_run_32 (fuel : nat) (first : list byte)
    (rest : list (list byte)) :
  length first = BytesPerChunk ->
  pack fuel (first :: rest) = Ok (first :: rest).
Proof.
  intros Hlen. unfold pack.
  destruct first as [|b first]; [discriminate | ].
  cbn [forallb length orb andb].
  rewrite (bool_decide_eq_false_2 (S _ = 0%nat)) by lia.
  rewrite (bool_decide_eq_false_2 (b :: first = [])) by discriminate.
  cbn [orb andb lookup_total list_lookup_total].
  rewrite bool_decide_eq_true_2 by exact Hlen. reflexivity.
Qed.

Lemma pack_first_run_32_short_second :
  length (replicate 32 x01) = BytesPerChunk
  /\ pack 0 [replicate 32 x01; [x02]] = Ok [replicate 32 x01; [x02]].
Proof.
  split; [reflexivity | ].
  exact (pack_first_run_32 0 (replicate 32 x01) [[x02]] eq_refl).
Defined.

(** C6. [pack] does not flatten, cut and pad every sequence of runs: on a
    first run of 32 bytes followed by a run of one byte it hands back the
    two runs, the second still one byte long, where section 4.4 asks for
    two chunks of 32 bytes, the second padded with 31 zero bytes. *)
Theorem pack_short_run_not_padded (fuel : nat) :
  pack fuel [replicate 32 x01; [x02]] = Ok [replicate 32 x01; [x02]]
  /\ pack_spec [replicate 32 x01; [x02]]
     = [replicate 32 x01; x02 :: replicate 31 x00].
Proof.
  split; reflexivity.
Qed.

(** ** decode.go: truncated input *)

Lemma u64_of_low_byte (x : Z) :
  u64 (default x00 (Byte.of_N (Z.to_N (Z.land x 255)))) = x mod 256.
Proof.
  change 255 with (Z.ones 8). rewrite Z.land_ones by lia.
  change (2 ^ 8) with 256.
  pose proof (Z.mod_pos_bound x 256 ltac:(lia)) as Hr.
  destruct (Byte.of_N (Z.to_N (x mod 256))) as [b|] eqn:Hb.
  - apply Byte.to_of_N in Hb. unfold u64. simpl.
    rewrite Hb, Z2N.id by lia. reflexivity.
  - apply Byte.of_N_None_iff in Hb. lia.
Qed.

(** The first [k] bytes of the encoding of [v] carry [v] modulo [256 ^ k]. *)
Lemma le_uint_encodeUint64_prefix (v : Z) (k : nat) :
  (k <= 8)%nat ->
  le_uint (take k (encodeUint64 v)) = v mod 2 ^ (8 * Z.of_nat k).
Proof.
  intros Hk. unfold encodeUint64. cbn [seq fmap list_fmap].
  destruct k as [|[|[|[|[|[|[|[|[|k]]]]]]]]]; [..|lia];
    cbn [take le_uint foldr]; rewrite ?u64_of_low_byte;
    rewrite ?Z.shiftr_div_pow2 by lia;
    cbn; Z.div_mod_to_equations; lia.
Qed.

Lemma length_encodeUint64 (v : Z) : length (encodeUint64 v) = 8%nat.
Proof. reflexivity. Qed.

(** Round trip of Uint64 through the encoding of the spec. *)
Lemma decodeUint64_encodeUint64 (v old : Z) (spare : list byte) :
  0 <= v < 2 ^ 64 ->
  decodeUint64 (mkBytes (encodeUint64 v) spare) (VUint 64 old)
  = Ok (8%nat, VUint 64 v).
Proof.
  intros Hv. rewrite decodeUint64_value. cbn [data].
  rewrite le_uint_encodeUint64_prefix by lia.
  change (8 * Z.of_nat 8) with 64. rewrite Z.mod_small by lia. reflexivity.
Qed.

Lemma makeStructDecoder_empty_input isBasicType basicElementSize fuel
    (fields : list rtype) (dec : decoder) (spare : list byte) (val : value) :
  makeDecoder isBasicType basicElementSize fuel (TStruct fields) = Ok dec ->
  dec (mkBytes [] spare) val = Ok (0%nat, val).
Proof.
  cbn [makeDecoder]. unfold makeStructDecoder.
  match goal with |- context [mbind _ ?r] => destruct r end;
    cbn; intros Hdec; inversion Hdec; reflexivity.
Qed.

(** C3, as the code has it. Truncation is not detected. For every value [v]
    and every proper prefix [b'] of the 8 bytes of [encode(v, Uint64)],
    [decodeUint64] succeeds on [b']: it reports 8 bytes consumed and stores
    the value of [b'] read as if followed by zero bytes, which is [v] modulo
    [256 ^ len(b')]. And the decoder of every container succeeds on the empty
    input, reporting 0 bytes consumed and leaving the target as it was. *)
Theorem truncated_input_accepted (v : Z) (b' spare : list byte) (old : Z) :
  b' `prefix_of` encodeUint64 v ->
  b' <> encodeUint64 v ->
  decodeUint64 (mkBytes b' spare) (VUint 64 old)
  = Ok (8%nat, VUint 64 (v mod 2 ^ (8 * Z.of_nat (length b'))))
  /\ (forall isBasicType basicElementSize fuel fields dec val,
        makeDecoder isBasicType basicElementSize fuel (TStruct fields)
        = Ok dec ->
        dec (mkBytes [] spare) val = Ok (0%nat, val)).
Proof.
  intros Hpre _. split.
  - rewrite decodeUint64_value. cbn [data].
    pose proof (prefix_length _ _ Hpre) as Hlen.
    rewrite length_encodeUint64 in Hlen.
    rewrite take_ge by lia.
    destruct Hpre as [k Hk].
    rewrite <- le_uint_encodeUint64_prefix by lia.
    rewrite Hk, take_app_length. reflexivity.
  - intros. eapply makeStructDecoder_empty_input; eassumption.
Qed.

Lemma truncated_input_accepted_run :
  [x08; x07; x06] `prefix_of` encodeUint64 0x0102030405060708
  /\ [x08; x07; x06] <> encodeUint64 0x0102030405060708
  /\ decodeUint64 (mkBytes [x08; x07; x06] []) (VUint 64 0)
     = Ok (8%nat, VUint 64 0x060708).
Proof.
  assert (Hpre : [x08; x07; x06] `prefix_of` encodeUint64 0x0102030405060708)
    by (exists [x05; x04; x03; x02; x01]; reflexivity).
  assert (Hne : [x08; x07; x06] <> encodeUint64 0x0102030405060708)
    by discriminate.
  split; [exact Hpre | split; [exact Hne | ]].
  exact (proj1 (truncated_input_accepted 0x0102030405060708
                  [x08; x07; x06] [] 0 Hpre Hne)).
Defined.

(** C3, as the spec has it, fails: the first three bytes of the encoding of
    0x0102030405060708 are a proper prefix of it, and [Decode] accepts them
    as a Uint64, storing 0x060708. *)
Lemma truncated_uint64_decodes :
  encodeUint64 0x0102030405060708 = [x08; x07; x06; x05; x04; x03; x02; x01]
  /\ [x08; x07; x06] `prefix_of` encodeUint64 0x0102030405060708
  /\ [x08; x07; x06] <> encodeUint64 0x0102030405060708
  /\ Decode (makeDecoder specIsBasicType specBasicElementSize 0)
            (mkBytes [x08; x07; x06] [])
            (Some (TPtr TUint64, VPtr (Some (VUint 64 0))))
     = Ok (VUint 64 0x060708).
Proof.
  split; [reflexivity | ]. split; [ | split].
  - exists [x05; x04; x03; x02; x01]. reflexivity.
  - discriminate.
  - vm_compute. reflexivity.
Qed.

(** ** decode.go: slices of basic elements *)

Lemma length_copy {A} (dst src : list A) : length (copy dst src) = length dst.
Proof.
  unfold copy. rewrite length_app, length_take, length_drop. lia.
Qed.

Lemma aborted_bind {A B} format (r : result A) (k : A -> result B) :
  aborted format r -> aborted format (r ≫= k).
Proof. destruct r; cbn; tauto. Qed.

Lemma aborted_wrap {A B} format (r : result A) (k : A -> result B) :
  (forall a, r = Ok a -> aborted format (k a)) ->
  aborted format (wrap format r ≫= k).
Proof.
  destruct r; cbn; intros Hk; eauto.
Qed.

Section BasicSlice.

Variable elemDecoder : decoder.
Variable elemSize : nat.
Variable input : bytes.

Lemma basicSliceLoop_ragged steps (k decodeSize : nat) (xs : list value) :
  (len input mod elemSize <> 0)%nat ->
  (k <= len input / elemSize)%nat ->
  length xs = (len input / elemSize)%nat ->
  aborted "failed to decode element of slice: %v"
    (basicSliceLoop elemDecoder elemSize input steps
       (k * elemSize) k decodeSize (VSlice xs)).
Proof.
  intros Hmod. revert k decodeSize xs.
  induction steps as [|steps IH]; intros k decodeSize xs Hk Hxs;
    cbn [basicSliceLoop];
    (destruct (decide (k * elemSize < len input)%nat) as [Hlt | Hge];
     [ | pose proof (Nat.div_mod_eq (len input) elemSize); nia]).
  - exact I.
  - unfold reslice. destruct (decide (_ /\ _)); cbn; [ | exact I].
    destruct (xs !! k) as [slot|] eqn:Hslot; cbn; [ | exact I].
    apply aborted_wrap. intros [elemDecodeSize slot'] _.
    replace (k * elemSize + elemSize)%nat with (S k * elemSize)%nat by lia.
    apply IH.
    + apply lookup_lt_Some in Hslot. lia.
    + rewrite length_insert. exact Hxs.
Qed.

Lemma basicSliceLoop_keeps_length steps (i k decodeSize : nat)
    (xs : list value) (r : nat * value) :
  basicSliceLoop elemDecoder elemSize input steps i k decodeSize (VSlice xs)
  = Ok r ->
  exists xs', r.2 = VSlice xs' /\ length xs' = length xs.
Proof.
  revert i k decodeSize xs.
  induction steps as [|steps IH]; intros i k decodeSize xs;
    cbn [basicSliceLoop]; destruct (decide _).
  all: try discriminate.
  all: try (intros [= <-]; eauto).
  unfold reslice. destruct (decide (_ /\ _)); cbn; [ | discriminate].
  destruct (xs !! k) as [slot|]; cbn; [ | discriminate].
  destruct (elemDecoder _ slot) as [[n slot'] | | |]; cbn;
    try discriminate.
  intros Hr. apply IH in Hr as (xs' & -> & Hlen).
  rewrite length_insert in Hlen. eauto.
Qed.

End BasicSlice.

(** Whatever the element type, an input whose length is not a multiple of
    the element size never decodes and never gets an error about its
    length: the call panics, runs out of steps, or passes on the error of an
    element decoder. *)
Lemma basicSliceDecoder_ragged basicElementSize fuel elemType
    (elemSSZUtils : result decoder) (dec : decoder) (input : bytes)
    (val : value) :
  makeBasicSliceDecoder basicElementSize fuel elemType elemSSZUtils = Ok dec ->
  (len input mod basicElementSize elemType (Kind_of elemType) <> 0)%nat ->
  aborted "failed to decode element of slice: %v" (dec input val).
Proof.
  unfold makeBasicSliceDecoder.
  destruct elemSSZUtils as [elemDecoder | | |]; cbn; try discriminate.
  intros [= <-] Hmod.
  destruct (decide _); [exact I | ].
  destruct val; cbn; try exact I.
  apply aborted_bind.
  apply (basicSliceLoop_ragged _ _ _ fuel 0); [exact Hmod | lia | ].
  rewrite length_copy, length_replicate. reflexivity.
Qed.

(** When the decoder of a slice of basic elements succeeds, the length of
    the input is a multiple of the element size and both the reported count
    and the length of the decoded slice are [len(input) / elemSize]. *)
Lemma basicSliceDecoder_count basicElementSize fuel elemType
    (elemSSZUtils : result decoder) (dec : decoder) (input : bytes)
    (val val' : value) (n : nat) :
  makeBasicSliceDecoder basicElementSize fuel elemType elemSSZUtils = Ok dec ->
  dec input val = Ok (n, val') ->
  let elemSize := basicElementSize elemType (Kind_of elemType) in
  (0 < elemSize)%nat
  /\ (len input mod elemSize = 0)%nat
  /\ n = (len input / elemSize)%nat
  /\ Len val' = Ok n.
Proof.
  intros Hdec Hrun elemSize.
  assert (Hmod : (len input mod elemSize = 0)%nat).
  { destruct (decide (len input mod elemSize = 0)%nat) as [|Hne]; [done | ].
    pose proof (basicSliceDecoder_ragged _ _ _ _ _ _ val Hdec Hne) as Hab.
    rewrite Hrun in Hab. destruct Hab. }
  revert Hdec Hrun. unfold makeBasicSliceDecoder.
  destruct elemSSZUtils as [elemDecoder | | |]; cbn; try discriminate.
  intros [= <-]. fold elemSize.
  destruct (decide _); [discriminate | ].
  destruct val; cbn; try discriminate.
  destruct (basicSliceLoop _ _ _ _ _ _ _ _) as [[d v] | | |] eqn:Hloop;
    cbn; try discriminate.
  destruct (decide _); [discriminate | ].
  intros [= <- <-].
  apply basicSliceLoop_keeps_length in Hloop as (xs' & Hv & Hlen).
  cbn in Hv. subst v. cbn.
  rewrite Hlen, length_copy, length_replicate.
  repeat split; try done. lia.
Qed.

(** C2, at an input the code mishandles. Three bytes decoded as a slice of
    uint16 (element size 2) do not give an error: the call panics. The slice
    is sized for [3 / 2 = 1] element and the loop goes on to a second one;
    when the backing array ends with the input, the slice expression
    [input[2:4]] panics, and when it is longer, [val.Index(1)] does. *)
Theorem basicSlice_ragged_input_panics (fuel : nat) (spare : list byte) :
  exists dec,
    makeDecoder specIsBasicType specBasicElementSize (S (S fuel))
      (TSlice TUint16) = Ok dec
    /\ dec (mkBytes [x01; x02; x03] spare) (VSlice [])
       = Panic (match spare with
                | [] => slice_bounds_out_of_range
                | _ => reflect_kind "reflect: slice index out of range"
                end).
Proof.
  eexists. split; [reflexivity | ].
  destruct spare as [|s spare]; vm_compute; reflexivity.
Qed.

Section BasicSliceExact.

Variable elemDecoder : decoder.
Variable elemType : rtype.
Variable elemSize : nat.
Variable input : bytes.
Variable elemDecodeSize : nat.
Variable decoded : list byte -> value.

Hypothesis elemDecoder_total : forall chunk,
  len chunk = elemSize ->
  elemDecoder chunk (zero elemType)
  = Ok (elemDecodeSize, decoded (data chunk)).
Hypothesis elemSize_pos : (0 < elemSize)%nat.

Lemma basicSliceLoop_exact (m steps k decodeSize : nat)
    (pre : list value) :
  ((k + m) * elemSize = len input)%nat ->
  (m <= steps)%nat ->
  length pre = k ->
  basicSliceLoop elemDecoder elemSize input steps
    (k * elemSize) k decodeSize
    (VSlice (pre ++ replicate m (zero elemType)))
  = Ok ((decodeSize + m * elemDecodeSize)%nat,
        VSlice (pre ++ ((fun j => decoded (chunk_at elemSize (data input) j))
                        <$> seq k m))).
Proof.
  revert steps k decodeSize pre.
  induction m as [|m IH]; intros steps k decodeSize pre Hlen Hsteps Hpre.
  - destruct steps; cbn [basicSliceLoop];
      (destruct (decide _); [lia | ]); cbn; do 2 f_equal; lia.
  - destruct steps as [|steps]; [lia | ]. cbn [basicSliceLoop].
    destruct (decide _); [ | nia].
    unfold reslice, cap. rewrite length_app.
    rewrite decide_True by (unfold len in *; nia). cbn [mbind result_bind].
    cbn [replicate Index].
    rewrite list_lookup_middle by done. cbn [mbind result_bind].
    rewrite elemDecoder_total; cycle 1.
    { unfold len in *. cbn [data].
      rewrite length_take, length_drop, length_app. nia. }
    cbn [wrap mbind result_bind data SetIndex].
    rewrite insert_app_r_alt by lia.
    replace (k - length pre)%nat with 0%nat by lia. cbn [insert list_insert].
    rewrite cons_middle, (assoc_L (++)).
    replace (k * elemSize + elemSize)%nat with (S k * elemSize)%nat by lia.
    rewrite IH. 2:{ nia. } 2:{ lia. } 2:{ rewrite length_app; cbn; lia. }
    cbn [seq fmap list_fmap]. rewrite <- (assoc_L (++)). cbn [app].
    f_equal. f_equal; [lia | ].
    do 2 f_equal. unfold chunk_at.
    replace (S k * elemSize - k * elemSize)%nat with elemSize by lia.
    unfold len in *.
    rewrite drop_app_le by nia. rewrite take_app_le; [done | ].
    rewrite length_drop. nia.
Qed.

End BasicSliceExact.

(** The positive half of C2. When every run of [elemSize] bytes decodes, an
    input of [n * elemSize] bytes decodes into [n] elements, the [j]-th from
    the [j]-th run. *)
Lemma basicSliceDecoder_exact basicElementSize fuel elemType
    (elemDecoder dec : decoder) (input : bytes) (n elemDecodeSize : nat)
    (decoded : list byte -> value) :
  let elemSize := basicElementSize elemType (Kind_of elemType) in
  makeBasicSliceDecoder basicElementSize fuel elemType (Ok elemDecoder)
  = Ok dec ->
  (forall chunk, len chunk = elemSize ->
     elemDecoder chunk (zero elemType)
     = Ok (elemDecodeSize, decoded (data chunk))) ->
  (0 < elemSize)%nat ->
  (0 < elemDecodeSize)%nat ->
  len input = (n * elemSize)%nat ->
  (n <= fuel)%nat ->
  dec input (VSlice [])
  = Ok (n, VSlice ((fun j => decoded (chunk_at elemSize (data input) j))
                   <$> seq 0 n)).
Proof.
  intros elemSize [= <-] Htotal Hpos Hdpos Hlen Hfuel. fold elemSize.
  rewrite decide_False by lia.
  replace (len input / elemSize)%nat with n
    by (rewrite Hlen, Nat.div_mul by lia; reflexivity).
  cbn [MakeSlice_Copy mbind result_bind].
  unfold copy. rewrite take_nil. cbn [length drop app].
  pose proof (basicSliceLoop_exact elemDecoder elemType elemSize input
                elemDecodeSize decoded Htotal Hpos n fuel 0 0 []
                ltac:(cbn; lia) Hfuel eq_refl) as Hloop.
  cbn [Nat.mul Nat.add app] in Hloop. rewrite drop_0, Hloop.
  cbn [mbind result_bind app]. rewrite decide_False by nia. reflexivity.
Qed.

(** A slice of uint64 decodes from every input of [8 * n] bytes into the [n]
    little-endian values of its runs of 8 bytes. *)
Lemma decode_uint64_slice isBasicType basicElementSize fuel
    (input : bytes) (n : nat) :
  isBasicType KUint64 = true ->
  basicElementSize TUint64 KUint64 = 8%nat ->
  len input = (n * 8)%nat ->
  (n <= fuel)%nat ->
  exists dec,
    makeDecoder isBasicType basicElementSize fuel (TSlice TUint64) = Ok dec
    /\ dec input (VSlice [])
       = Ok (n, VSlice ((fun j => VUint 64 (le_uint (chunk_at 8 (data input) j)))
                        <$> seq 0 n)).
Proof.
  intros Hbasic Hsize Hlen Hfuel. cbn [makeDecoder Kind_of Kind_eqb].
  rewrite Hbasic. eexists. split; [reflexivity | ].
  pose proof (basicSliceDecoder_exact basicElementSize fuel TUint64
                decodeUint64 _ input n 8 (fun d => VUint 64 (le_uint d))
                eq_refl) as Hexact.
  cbn [Kind_of] in Hexact. rewrite Hsize in Hexact.
  cbn [Kind_of]. rewrite Hsize. apply Hexact; try lia.
  intros chunk Hchunk. cbn [zero]. rewrite decodeUint64_value.
  unfold len in Hchunk. rewrite take_ge by lia. reflexivity.
Qed.

(** ** decode.go: slices of composite elements *)

(** The loop of the composite decoder makes no progress: it is left at once
    when [firstOffset] is 0, it fails in its first iteration when
    [firstOffset] exceeds the length of the input, and otherwise it never
    ends, whatever the step budget. *)
Lemma offsetLoop_cases (input : bytes) (steps : nat) (firstOffset : Z) :
  offsetLoop input steps 0 firstOffset firstOffset
  = if 0 <? firstOffset then
      match steps with
      | O => Timeout
      | S _ =>
          if firstOffset >? Z.of_nat (len input)
          then Err (errors_New "offset out of bounds")
          else Timeout
      end
    else Ok tt.
Proof.
  induction steps as [|steps IH]; cbn [offsetLoop];
    destruct (0 <? firstOffset) eqn:Hpos; try reflexivity.
  destruct (firstOffset >? Z.of_nat (len input)) eqn:Hout; [reflexivity | ].
  rewrite IH. destruct steps; reflexivity.
Qed.

(** Whatever the element decoder does, a result of the composite decoder is
    the count [len(input) / 4] and the target resized to that count: no
    offset decides the count and no element is written. *)
Lemma compositeSliceDecoder_result fuel elemType
    (elemSSZUtils : result decoder) (dec : decoder) (input : bytes)
    (val val' : value) (n : nat) :
  makeCompositeSliceDecoder fuel elemType elemSSZUtils = Ok dec ->
  dec input val = Ok (n, val') ->
  n = (len input / BytesPerLengthOffset)%nat
  /\ MakeSlice_Copy elemType n val = Ok val'.
Proof.
  unfold makeCompositeSliceDecoder.
  destruct elemSSZUtils as [elemDecoder | | |]; cbn [mbind result_bind];
    try discriminate.
  intros [= <-].
  destruct (MakeSlice_Copy _ _ val) as [v | | |] eqn:Hmake;
    cbn [mbind result_bind]; try discriminate.
  destruct (reslice input 0 _) as [head | | |];
    cbn [mbind result_bind]; try discriminate.
  destruct (elemDecoder head _) as [r | | |];
    cbn [mbind result_bind]; try discriminate.
  unfold compositeSliceTail.
  destruct (offsetLoop _ _ _ _ _); cbn [mbind result_bind];
    try discriminate.
  intros [= <- <-]. split; [reflexivity | exact Hmake].
Qed.

(** C1, at an input the code mishandles. The 9 bytes
    [04 00 00 00 | aa bb cc dd ee] encode a list of one byte list of 5 bytes:
    first offset 4, so one element, spanning bytes 4 to 9. The decoder sizes
    the target for [9 / 4 = 2] elements and decodes none. With byte-list
    elements the call of the element decoder on [input[:4]] panics, its
    target being the uint64 local; with pointer elements, whose decoder sets
    nothing, the call returns 2 and leaves two nil elements. *)
Theorem compositeSlice_ignores_offsets (fuel : nat) :
  let input := mkBytes [x04; x00; x00; x00; xaa; xbb; xcc; xdd; xee] [] in
  (exists dec,
     makeDecoder specIsBasicType specBasicElementSize fuel
       (TSlice (TSlice TUint8)) = Ok dec
     /\ dec input (VSlice []) = Panic (reflect_kind "reflect.Value.SetBytes"))
  /\ (exists dec,
        makeDecoder specIsBasicType specBasicElementSize fuel
          (TSlice (TPtr (TSlice TUint8))) = Ok dec
        /\ dec input (VSlice []) = Ok (2%nat, VSlice [VPtr None; VPtr None])).
Proof.
  split; eexists; (split; [reflexivity | ]);
    destruct fuel; vm_compute; reflexivity.
Qed.

(** ** experiment: pack outside the shortcut *)

Section PackRefinement.

Local Open Scope nat_scope.

Lemma padLoop_pads (steps : nat) (c : list byte) :
32 - length c <= steps ->
padLoop steps c = Ok (c ++ replicate (32 - length c) x00).
Proof.
revert c. induction steps as [|steps IH]; intros c Hsteps;
  cbn [padLoop]; unfold BytesPerChunk; destruct (decide _) as [Hlt | Hge].
- lia.
- replace (32 - length c) with 0 by lia. cbn. rewrite app_nil_r. reflexivity.
- rewrite IH by (rewrite length_app; cbn; lia).
  rewrite length_app. cbn [length].
  replace (32 - length c) with (S (32 - (length c + 1))) by lia.
  cbn [replicate]. rewrite <- (assoc_L (++)). reflexivity.
- replace (32 - length c) with 0 by lia. cbn. rewrite app_nil_r. reflexivity.
Qed.

Lemma packLoop_chunks (flat : list byte) (n steps i : nat)
  (chunks : list (list byte)) :
length (drop i flat) <= n ->
length (drop i flat) <= steps ->
packLoop flat steps i chunks = Ok (chunks ++ raw_chunks n (drop i flat)).
Proof.
revert steps i chunks.
induction n as [|n IH]; intros steps i chunks Hn Hsteps.
- rewrite length_drop in Hn.
  destruct steps; cbn [packLoop raw_chunks];
    (destruct (decide _); [lia | ]); rewrite app_nil_r; reflexivity.
- rewrite length_drop in Hn, Hsteps.
  destruct steps as [|steps]; cbn [packLoop];
    unfold BytesPerChunk; destruct (decide (i < length flat)) as [Hlt | Hge].
  + lia.
  + cbn [raw_chunks]. rewrite drop_ge by lia. rewrite app_nil_r. reflexivity.
  + rewrite (IH steps (i + 32)); rewrite ?length_drop; try lia.
    cbn [raw_chunks].
    destruct (drop i flat) as [|b tl] eqn:Hdrop.
    { apply (f_equal length) in Hdrop. rewrite length_drop in Hdrop.
      cbn in Hdrop. lia. }
    rewrite <- Hdrop. rewrite <- (assoc_L (++)). cbn [app].
    rewrite drop_drop. do 3 f_equal.
    destruct (decide _).
    * rewrite (take_ge (drop i flat)) by (rewrite length_drop; lia).
      symmetry. apply take_ge. rewrite length_drop. lia.
    * f_equal. lia.
  + cbn [raw_chunks]. rewrite drop_ge by lia. rewrite app_nil_r. reflexivity.
Qed.

Lemma chunks_of_nil (n : nat) : chunks_of n [] = [].
Proof. destruct n; reflexivity. Qed.

Lemma raw_chunks_nil (n : nat) : raw_chunks n [] = [].
Proof. destruct n; reflexivity. Qed.

(** Padding the last chunk of the loop gives the chunks of the spec. *)
Lemma raw_chunks_pad_last (n : nat) (flat : list byte) :
length flat <= n ->
flat <> [] ->
exists lastChunk,
  raw_chunks n flat !! (length (raw_chunks n flat) - 1) = Some lastChunk
  /\ <[length (raw_chunks n flat) - 1 :=
         lastChunk ++ replicate (32 - length lastChunk) x00]>
       (raw_chunks n flat)
     = chunks_of n flat.
Proof.
revert flat. induction n as [|n IH]; intros flat Hn Hflat.
- destruct flat; [done | cbn in Hn; lia].
- cbn [raw_chunks chunks_of]. destruct flat as [|b flat]; [done | ].
  set (l := b :: flat) in *.
  destruct (decide (drop 32 l = [])) as [Hend | Hmore].
  + rewrite Hend, raw_chunks_nil, chunks_of_nil. cbn. eauto.
  + destruct (IH (drop 32 l)) as (lastChunk & Hlast & Hpad).
    { rewrite length_drop. subst l. cbn [length] in *. lia. }
    { exact Hmore. }
    assert (Hpos : 0 < length (raw_chunks n (drop 32 l))).
    { apply lookup_lt_Some in Hlast. lia. }
    assert (Hfull : length (take 32 l) = 32).
    { rewrite length_take.
      assert (length (drop 32 l) <> 0) by (destruct (drop 32 l); done).
      rewrite length_drop in *. lia. }
    exists lastChunk. cbn [length].
    replace (S (length (raw_chunks n (drop 32 l))) - 1)
      with (S (length (raw_chunks n (drop 32 l)) - 1)) by lia.
    cbn [lookup list_lookup insert list_insert]. split; [exact Hlast | ].
    f_equal; [ | exact Hpad].
    rewrite Hfull. cbn. rewrite app_nil_r. reflexivity.
Qed.

(** [areAllEmpty] holds exactly when the runs have no byte at all. *)
Lemma areAllEmpty_concat (items : list (list byte)) :
forallb (fun item => bool_decide (item = [])) items
= bool_decide (concat items = []).
Proof.
induction items as [|item items IH]; [reflexivity | ].
cbn [forallb concat]. rewrite IH.
destruct item; cbn; [ | reflexivity].
reflexivity.
Qed.

(** Outside the shortcut [pack] is the [pack] of section 4.4: when the first
  run is not 32 bytes long (or there is no run at all) and the step budget
  covers the bytes, the chunks are those of [pack_spec]. In particular the
  empty sequence gives one all-zero chunk. *)
Lemma pack_refines_spec (fuel : nat) (items : list (list byte)) :
(forall first rest, items = first :: rest -> length first <> 32) ->
length (concat items) <= fuel ->
32 <= fuel ->
pack fuel items = Ok (pack_spec items).
Proof.
intros Hfirst Hfuel Hpad. unfold pack, pack_spec.
rewrite areAllEmpty_concat.
destruct (decide (concat items = [])) as [Hnil | Hflat].
- rewrite (bool_decide_eq_true_2 _ Hnil), orb_true_r, Hnil. reflexivity.
- rewrite (bool_decide_eq_false_2 _ Hflat), orb_false_r.
  destruct items as [|first rest]; [done | ].
  rewrite (bool_decide_eq_false_2 (length (first :: rest) = 0)) by done.
  cbn [lookup_total list_lookup_total].
  rewrite bool_decide_eq_false_2 by (eapply Hfirst; reflexivity).
  set (flat := concat (first :: rest)) in *.
  rewrite (packLoop_chunks flat (length flat) fuel 0 [])
    by (rewrite drop_0; lia).
  cbn [mbind result_bind app]. rewrite drop_0.
  destruct (raw_chunks_pad_last (length flat) flat) as (lastChunk & -> & Hpad');
    [lia | exact Hflat | ].
  rewrite padLoop_pads by lia. cbn [mbind result_bind].
  rewrite Hpad'. destruct flat; [done | reflexivity].
Qed.

Lemma pack_empty (fuel : nat) : pack fuel [] = Ok [replicate 32 x00].
Proof. reflexivity. Qed.

End PackRefinement.

(** ** Runs of the embedding *)

(** A container of a uint32 and a bool decodes field by field; cut short by
    one byte, the same input makes the slice expression of the second field
    panic. *)
Example Decode_struct_run :
  Decode (makeDecoder specIsBasicType specBasicElementSize 0)
         (mkBytes [xdd; xcc; xbb; xaa; x01] [])
         (Some (TPtr (TStruct [TUint32; TBool]),
                VPtr (Some (zero (TStruct [TUint32; TBool])))))
  = Ok (VStruct [VUint 32 0xAABBCCDD; VBool true])
  /\ Decode (makeDecoder specIsBasicType specBasicElementSize 0)
            (mkBytes [xdd; xcc; xbb; xaa] [])
            (Some (TPtr (TStruct [TUint32; TBool]),
                   VPtr (Some (zero (TStruct [TUint32; TBool])))))
     = Panic slice_bounds_out_of_range.
Proof. split; run. Qed.

Example Decode_uint16_slice_run :
  Decode (makeDecoder specIsBasicType specBasicElementSize 2)
         (mkBytes [x01; x00; x02; x00] [])
         (Some (TPtr (TSlice TUint16), VPtr (Some (VSlice []))))
  = Ok (VSlice [VUint 16 1; VUint 16 2]).
Proof. run. Qed.

Example Decode_bool_slice_run :
  Decode (makeDecoder specIsBasicType specBasicElementSize 2)
         (mkBytes [x01; x02] [])
         (Some (TPtr (TSlice TBool), VPtr (Some (VSlice []))))
  = Err (newDecodeError
           (fmt_Sprint
              (Errorf_v "failed to decode element of slice: %v"
                 (Errorf_d "expect 0 or 1 for decoding bool but got %d" 2)))
           (Some (TSlice TBool))).
Proof. run. Qed.

Example pack_short_runs_run :
  pack 32 [[x01; x02]; [x03]] = Ok [x01 :: x02 :: x03 :: replicate 29 x00].
Proof. run. Qed.

(** Two chunks are hashed together; a third one is first paired with a
    chunk of zeros. *)
Example merkleize_two_chunks hash (a b : list byte) :
  merkleize hash 1 [a; b] = Ok (toRoot (hash (a ++ b))).
Proof. reflexivity. Qed.

Example merkleize_three_chunks hash (a b c : list byte) :
  merkleize hash 2 [a; b; c]
  = Ok (toRoot (hash (hash (a ++ b) ++ hash (c ++ make BytesPerChunk)))).
Proof. reflexivity. Qed.

(** * Further properties of the decoder *)

(** ** decode.go: integers, bytes and pointers *)

Lemma decodeUint16_value (input : bytes) (old : Z) :
  decodeUint16 input (VUint 16 old)
  = Ok (2%nat, VUint 16 (le_uint (take 2 (data input)))).
Proof.
  unfold decodeUint16, LittleEndian_Uint16, copy, make.
  destruct input as [d sp]; cbn [data].
  by_length 2%nat d; cbn; rewrite ?take_0; cbn [foldr];
    forget_bytes u64_range; do 3 f_equal; lor_to_add lor_shiftl_add;
    rewrite Z.mod_small by lia; lia.
Qed.

Lemma decodeUint32_value (input : bytes) (old : Z) :
  decodeUint32 input (VUint 32 old)
  = Ok (4%nat, VUint 32 (le_uint (take 4 (data input)))).
Proof.
  unfold decodeUint32, LittleEndian_Uint32, copy, make.
  destruct input as [d sp]; cbn [data].
  by_length 4%nat d; cbn; rewrite ?take_0; cbn [foldr];
    forget_bytes u64_range; do 3 f_equal; lor_to_add lor_shiftl_add;
    rewrite Z.mod_small by lia; lia.
Qed.

(** X1. The decoders of uint16, uint32 and uint64 never look at the length
    of the input: they store the little-endian value of its first 2, 4 or 8
    bytes, reading missing bytes as zero and ignoring any byte that follows,
    and always report 2, 4 or 8 bytes consumed. *)
Theorem decodeUint_reads_prefix (input : bytes) (old : Z) :
  decodeUint16 input (VUint 16 old)
  = Ok (2%nat, VUint 16 (le_uint (take 2 (data input))))
  /\ decodeUint32 input (VUint 32 old)
     = Ok (4%nat, VUint 32 (le_uint (take 4 (data input))))
  /\ decodeUint64 input (VUint 64 old)
     = Ok (8%nat, VUint 64 (le_uint (take 8 (data input)))).
Proof.
  split; [apply decodeUint16_value | split].
  - apply decodeUint32_value.
  - apply decodeUint64_value.
Qed.

(** X2. Round trip of Uint64: the 8 little-endian bytes of a value below
    [2 ^ 64], followed by any bytes, decode to that value. *)
Theorem decodeUint64_round_trip (v old : Z) (extra spare : list byte) :
  0 <= v < 2 ^ 64 ->
  decodeUint64 (mkBytes (encodeUint64 v ++ extra) spare) (VUint 64 old)
  = Ok (8%nat, VUint 64 v).
Proof.
  intros Hv. rewrite decodeUint64_value. cbn [data].
  rewrite take_app_le by (rewrite length_encodeUint64; lia).
  rewrite le_uint_encodeUint64_prefix by lia.
  change (8 * Z.of_nat 8) with 64. rewrite Z.mod_small by lia. reflexivity.
Qed.

Lemma decodeUint64_round_trip_run :
  0 <= 0x0102030405060708 < 2 ^ 64
  /\ decodeUint64 (mkBytes (encodeUint64 0x0102030405060708 ++ [xff]) [])
                  (VUint 64 0)
     = Ok (8%nat, VUint 64 0x0102030405060708).
Proof.
  assert (H : 0 <= 0x0102030405060708 < 2 ^ 64) by lia.
  split; [exact H | ].
  exact (decodeUint64_round_trip 0x0102030405060708 0 [xff] [] H).
Defined.

(** X3. Decoded into a uint8, a non-empty input gives its first byte; an
    empty input makes [Decode] panic, for a uint8 target as for a bool one,
    since both decoders index [input[0]] unguarded. *)
Theorem Decode_byte_and_bool_edges isBasicType basicElementSize fuel
    (b : byte) (rest spare : list byte) (old : Z) (target : value) :
  Decode (makeDecoder isBasicType basicElementSize fuel)
         (mkBytes (b :: rest) spare)
         (Some (TPtr TUint8, VPtr (Some (VUint 8 old))))
  = Ok (VUint 8 (u64 b))
  /\ Decode (makeDecoder isBasicType basicElementSize fuel)
            (mkBytes [] spare) (Some (TPtr TUint8, VPtr (Some target)))
     = Panic index_out_of_range
  /\ Decode (makeDecoder isBasicType basicElementSize fuel)
            (mkBytes [] spare) (Some (TPtr TBool, VPtr (Some target)))
     = Panic index_out_of_range.
Proof.
  repeat split. cbn. f_equal. f_equal.
  pose proof (u64_range b). apply Z.mod_small. lia.
Qed.

(** X4. An int32 target is given the decoder of uint32, which stores with
    [SetUint]: reflect refuses that on a signed integer, so [Decode] into an
    int32 panics on every input. *)
Theorem Decode_int32_panics isBasicType basicElementSize fuel
    (input : bytes) (n : Z) :
  Decode (makeDecoder isBasicType basicElementSize fuel) input
         (Some (TPtr TInt32, VPtr (Some (VInt32 n))))
  = Panic (reflect_kind "reflect.Value.SetUint").
Proof. reflexivity. Qed.

(** X6. The decoder of a pointer type decodes into a fresh object and never
    stores it: when [Decode] into a pointer to a pointer succeeds, the inner
    pointer is what it was before. *)
Theorem Decode_pointer_target_unchanged isBasicType basicElementSize fuel
    (elem : rtype) (input : bytes) (target result : value) :
  Decode (makeDecoder isBasicType basicElementSize fuel) input
         (Some (TPtr (TPtr elem), VPtr (Some target)))
  = Ok result ->
  result = target.
Proof.
  cbn [Decode Kind_of Kind_eqb negb Elem makeDecoder].
  unfold makePtrDecoder.
  destruct (makeDecoder _ _ _ elem) as [elemDecoder | | |];
    cbn [mbind result_bind]; try discriminate.
  destruct (elemDecoder input _) as [[n v] | | |]; cbn; try discriminate.
  intros [= <-]. reflexivity.
Qed.

Lemma Decode_pointer_target_unchanged_run :
  Decode (makeDecoder specIsBasicType specBasicElementSize 0)
         (mkBytes [x01; x00; x00; x00; x00; x00; x00; x00] [])
         (Some (TPtr (TPtr TUint64), VPtr (Some (VPtr None))))
  = Ok (VPtr None)
  /\ VPtr None = VPtr None.
Proof.
  assert (Hrun : Decode (makeDecoder specIsBasicType specBasicElementSize 0)
                   (mkBytes [x01; x00; x00; x00; x00; x00; x00; x00] [])
                   (Some (TPtr (TPtr TUint64), VPtr (Some (VPtr None))))
                 = Ok (VPtr None)) by reflexivity.
  split; [exact Hrun | ].
  exact (Decode_pointer_target_unchanged specIsBasicType
           specBasicElementSize 0 TUint64 _ _ _ Hrun).
Defined.

(** X5. The decoder of a byte array copies the input over the array: the
    array keeps its length, its first bytes become those of the input, the
    elements past the end of a shorter input keep their old content, and the
    reported size is the length of the input, not of the array. *)
Theorem decodeByteArray_overwrites_prefix isBasicType basicElementSize fuel
    (n : nat) (input : bytes) (xs : list value) :
  exists dec ys,
    makeDecoder isBasicType basicElementSize fuel (TArray n TUint8) = Ok dec
    /\ dec input (VArray xs) = Ok (len input, VArray ys)
    /\ length ys = length xs
    /\ (forall (i : nat) b, (i < length xs)%nat -> data input !! i = Some b ->
          ys !! i = Some (VUint 8 (u64 b)))
    /\ (forall i : nat, (len input <= i)%nat -> ys !! i = xs !! i).
Proof.
  eexists. eexists. split; [reflexivity | ]. split; [reflexivity | ].
  unfold copy, len. rewrite length_fmap. split; [ | split].
  - rewrite length_app, length_take, length_drop, length_fmap. lia.
  - intros i b Hi Hb.
    rewrite lookup_app_l
      by (rewrite length_take, length_fmap; apply lookup_lt_Some in Hb; lia).
    rewrite lookup_take_lt by lia. rewrite list_lookup_fmap, Hb. reflexivity.
  - intros i Hi.
    destruct (decide (i < length xs)%nat) as [Hlt | Hge].
    + rewrite lookup_app_r by (rewrite length_take, length_fmap; lia).
      rewrite length_take, length_fmap, lookup_drop. f_equal. lia.
    + rewrite (lookup_ge_None_2 xs) by lia. apply lookup_ge_None_2.
      rewrite length_app, length_take, length_drop, length_fmap. lia.
Qed.

(** X9. Every error [Decode] returns is a [decodeError]: the errors of the
    schema cache and of the decoders are wrapped, never passed on bare. *)
Theorem Decode_error_is_decodeError (cachedSSZUtils : rtype -> result decoder)
    (input : bytes) (val : option (rtype * value)) (e : error) :
  Decode cachedSSZUtils input val = Err e ->
  exists msg t, e = newDecodeError msg t.
Proof.
  unfold Decode. destruct val as [[rtyp rval]|]; [ | intros [= <-]; eauto].
  destruct (negb _); [intros [= <-]; eauto | ].
  destruct rval as [| | | | | |[target|]|]; try discriminate;
    [ | intros [= <-]; eauto].
  destruct (Elem rtyp) as [elemType|]; [ | discriminate].
  destruct (cachedSSZUtils elemType) as [dec | | |]; try discriminate;
    [ | intros [= <-]; eauto].
  destruct (dec input target) as [[n v] | | |]; cbn; try discriminate.
  intros [= <-]; eauto.
Qed.

Lemma Decode_error_is_decodeError_run :
  exists msg t,
    newDecodeError (msg_text "cannot decode into nil") None
    = newDecodeError msg t.
Proof.
  exact (Decode_error_is_decodeError
           (makeDecoder specIsBasicType specBasicElementSize 0)
           (mkBytes [] []) None _ eq_refl).
Defined.

(** ** decode.go: the types [makeDecoder] accepts *)


Section MakeDecoder.

Variable isBasicType : Kind -> bool.
Variable basicElementSize : rtype -> Kind -> nat.
Variable fuel : nat.



End MakeDecoder.

(** ** decode.go: containers *)

Section StructLoop.

Variable basicElementSize : rtype -> Kind -> nat.
Variable input : bytes.

Lemma structLoop_outcome (rest : list field) (i offsetIndex : nat)
    (val : value) :
  match structLoop basicElementSize input rest i offsetIndex val with
  | Ok (i', _, _) => i' = (i + length rest)%nat
  | Err e =>
      exists inner, e = Errorf_v "failed to decode field of slice: %v" inner
  | Panic _ => True
  | Timeout => exists f, f ∈ rest
  end.
Proof.
  revert i offsetIndex val.
  induction rest as [|f rest IH]; intros i offsetIndex val;
    cbn [structLoop length].
  - lia.
  - destruct val as [| | | | |fs| |]; cbn; try exact I.
    destruct (fs !! index f) as [slot|]; cbn; [ | exact I].
    unfold reslice. destruct (decide (_ /\ _)); cbn; [ | exact I].
    destruct (sszUtils_decoder f _ slot) as [[n slot'] | | |]; cbn;
      eauto; [ | exists f; left].
    specialize (IH (S i) (offsetIndex + n)%nat
                  (VStruct (<[index f := slot']> fs))).
    destruct (structLoop _ _ _ _ _ _) as [[[i' o'] v'] | | |];
      [lia | exact IH | exact I | ].
    destruct IH as [g Hg]. exists g. right. exact Hg.
Qed.

End StructLoop.

(** X7. The only error of a container decoder is the error of a field
    decoder, wrapped; its own check "input is too short" can never fire,
    the loop before it always running through all the fields. *)
Theorem structDecoder_errors isBasicType basicElementSize fuel
    (fields : list rtype) (dec : decoder) (input : bytes) (val : value)
    (e : error) :
  makeDecoder isBasicType basicElementSize fuel (TStruct fields) = Ok dec ->
  dec input val = Err e ->
  exists inner, e = Errorf_v "failed to decode field of slice: %v" inner.
Proof.
  cbn [makeDecoder]. unfold makeStructDecoder.
  match goal with |- context [mbind _ ?r] => destruct r as [fs | | |] end;
    cbn [mbind result_bind]; try discriminate.
  intros [= <-]. destruct (decide _); [discriminate | ].
  pose proof (structLoop_outcome basicElementSize input fs 0 0 val) as Hloop.
  destruct (structLoop _ _ _ _ _ _) as [[[i' o'] v'] | | |];
    cbn [mbind result_bind]; try discriminate.
  - destruct (decide _); [lia | discriminate].
  - intros [= <-]. exact Hloop.
Qed.

Lemma structDecoder_errors_run :
  exists inner,
    Errorf_v "failed to decode field of slice: %v"
      (Errorf_d "expect 0 or 1 for decoding bool but got %d" 2)
    = Errorf_v "failed to decode field of slice: %v" inner.
Proof.
  eapply (structDecoder_errors specIsBasicType specBasicElementSize 0
            [TBool] _ (mkBytes [x02] []) (VStruct [VBool false]));
    reflexivity.
Defined.

(** ** decode.go: arrays *)

Section ArrayExact.

Variable elemDecoder : decoder.
Variable elemType : rtype.
Variable elemSize : nat.
Variable input : bytes.
Variable elemDecodeSize : nat.
Variable decoded : list byte -> value.

Hypothesis elemDecoder_total : forall chunk,
  len chunk = elemSize ->
  elemDecoder chunk (zero elemType)
  = Ok (elemDecodeSize, decoded (data chunk)).

Lemma arrayLoop_exact (m k decodeSize : nat) (pre : list value) :
  ((k + m) * elemSize <= cap input)%nat ->
  length pre = k ->
  arrayLoop elemDecoder elemSize input m k decodeSize (k * elemSize)
    (VArray (pre ++ replicate m (zero elemType)))
  = Ok ((decodeSize + m * elemDecodeSize)%nat,
        VArray (pre ++ ((fun j => decoded (chunk_at elemSize
                                             (data input ++ spare input) j))
                        <$> seq k m))).
Proof.
  revert k decodeSize pre.
  induction m as [|m IH]; intros k decodeSize pre Hcap Hpre.
  - cbn. do 2 f_equal. lia.
  - cbn [arrayLoop]. unfold reslice.
    rewrite decide_True by nia. cbn [mbind result_bind replicate Index].
    rewrite list_lookup_middle by done. cbn [mbind result_bind].
    rewrite elemDecoder_total; cycle 1.
    { unfold len, cap in *. cbn [data].
      rewrite length_take, length_drop. nia. }
    cbn [wrap mbind result_bind data SetIndex].
    rewrite insert_app_r_alt by lia.
    replace (k - length pre)%nat with 0%nat by lia. cbn [insert list_insert].
    rewrite cons_middle, (assoc_L (++)).
    replace (k * elemSize + elemSize)%nat with (S k * elemSize)%nat by lia.
    rewrite IH; [ | nia | rewrite length_app; cbn; lia].
    cbn [seq fmap list_fmap]. rewrite <- (assoc_L (++)). cbn [app].
    f_equal. f_equal; [lia | ].
    do 2 f_equal. unfold chunk_at.
    replace (S k * elemSize - k * elemSize)%nat with elemSize by lia.
    reflexivity.
Qed.

End ArrayExact.

(** When every run of [elemSize] bytes decodes, an array of [n] elements
    decodes from the first [n * elemSize] bytes of the backing array. *)
Lemma arrayDecoder_reads_backing_array basicElementSize
    (typ elemType : rtype) (elemDecoder dec : decoder) (input : bytes)
    (n elemDecodeSize : nat) (decoded : list byte -> value) :
  let elemSize := basicElementSize typ (Kind_of elemType) in
  makeArrayDecoder basicElementSize typ elemType (Ok elemDecoder) = Ok dec ->
  (forall chunk, len chunk = elemSize ->
     elemDecoder chunk (zero elemType)
     = Ok (elemDecodeSize, decoded (data chunk))) ->
  (0 < elemDecodeSize)%nat ->
  (n * elemSize <= cap input)%nat ->
  dec input (VArray (replicate n (zero elemType)))
  = Ok ((n * elemDecodeSize)%nat,
        VArray ((fun j => decoded (chunk_at elemSize
                                     (data input ++ spare input) j))
                <$> seq 0 n)).
Proof.
  intros elemSize [= <-] Htotal Hpos Hcap. fold elemSize.
  cbn [Len mbind result_bind]. rewrite length_replicate.
  pose proof (arrayLoop_exact elemDecoder elemType elemSize input
                elemDecodeSize decoded Htotal n 0 0 []
                ltac:(cbn; lia) eq_refl) as Hloop.
  cbn [Nat.mul Nat.add app] in Hloop. rewrite Hloop.
  cbn [mbind result_bind]. rewrite decide_False by nia. reflexivity.
Qed.

Section ArrayShort.

Variable elemDecoder : decoder.
Variable elemType : rtype.
Variable elemSize : nat.
Variable input : bytes.
Variable elemDecodeSize : nat.
Variable decoded : list byte -> value.

Hypothesis elemDecoder_total : forall chunk,
  len chunk = elemSize ->
  elemDecoder chunk (zero elemType)
  = Ok (elemDecodeSize, decoded (data chunk)).

Lemma arrayLoop_short (m k decodeSize : nat) (pre : list value) :
  (k * elemSize <= cap input < (k + m) * elemSize)%nat ->
  length pre = k ->
  arrayLoop elemDecoder elemSize input m k decodeSize (k * elemSize)
    (VArray (pre ++ replicate m (zero elemType)))
  = Panic slice_bounds_out_of_range.
Proof.
  revert k decodeSize pre.
  induction m as [|m IH]; intros k decodeSize pre Hcap Hpre; [lia | ].
  cbn [arrayLoop]. unfold reslice.
  destruct (decide (_ /\ _)) as [[_ Hfit] | Hout]; [ | reflexivity].
  cbn [mbind result_bind replicate Index].
  rewrite list_lookup_middle by done. cbn [mbind result_bind].
  rewrite elemDecoder_total; cycle 1.
  { unfold len, cap in *. cbn [data].
    rewrite length_take, length_drop. nia. }
  cbn [wrap mbind result_bind data SetIndex].
  rewrite insert_app_r_alt by lia.
  replace (k - length pre)%nat with 0%nat by lia. cbn [insert list_insert].
  rewrite cons_middle, (assoc_L (++)).
  replace (k * elemSize + elemSize)%nat with (S k * elemSize)%nat by lia.
  apply IH; [nia | rewrite length_app; cbn; lia].
Qed.

End ArrayShort.

(** X14. An array of [n] uint64 decoded from a slice whose capacity is below
    [8 * n] bytes ends in a panic of a slice expression, not in an error. *)
Theorem decode_uint64_array_short_panics isBasicType basicElementSize fuel
    (input : bytes) (n : nat) :
  basicElementSize (TArray n TUint64) KUint64 = 8%nat ->
  (cap input < n * 8)%nat ->
  exists dec,
    makeDecoder isBasicType basicElementSize fuel (TArray n TUint64) = Ok dec
    /\ dec input (zero (TArray n TUint64))
       = Panic slice_bounds_out_of_range.
Proof.
  intros Hsize Hcap. cbn [makeDecoder Kind_of Kind_eqb zero].
  eexists. split; [reflexivity | ].
  cbn [makeArrayDecoder mbind result_bind Len Kind_of].
  rewrite Hsize, length_replicate.
  assert (Htotal : forall chunk, len chunk = 8%nat ->
            decodeUint64 chunk (zero TUint64)
            = Ok (8%nat, VUint 64 (le_uint (data chunk)))).
  { intros chunk Hchunk. cbn [zero]. rewrite decodeUint64_value.
    unfold len in Hchunk. rewrite take_ge by lia. reflexivity. }
  pose proof (arrayLoop_short decodeUint64 TUint64 8 input 8
                (fun d => VUint 64 (le_uint d)) Htotal
                n 0%nat 0%nat [] ltac:(lia) eq_refl) as Hloop.
  cbn [Nat.mul app zero] in Hloop. rewrite Hloop. reflexivity.
Qed.

Lemma decode_uint64_array_short_panics_run :
  exists dec,
    makeDecoder specIsBasicType specBasicElementSize 0 (TArray 2 TUint64)
    = Ok dec
    /\ dec (mkBytes [x01; x00; x00; x00; x00; x00; x00; x00; x02] [])
           (VArray [VUint 64 0; VUint 64 0])
       = Panic slice_bounds_out_of_range.
Proof.
  exact (decode_uint64_array_short_panics specIsBasicType
           specBasicElementSize 0
           (mkBytes [x01; x00; x00; x00; x00; x00; x00; x00; x02] []) 2
           eq_refl ltac:(cbn; lia)).
Defined.

(** ** decode.go: slices and arrays, through [makeDecoder] *)

Lemma makeDecoder_basic_slice isBasicType basicElementSize fuel
    (elem : rtype) :
  Kind_of elem <> KUint8 ->
  isBasicType (Kind_of elem) = true ->
  makeDecoder isBasicType basicElementSize fuel (TSlice elem)
  = makeBasicSliceDecoder basicElementSize fuel elem
      (makeDecoder isBasicType basicElementSize fuel elem).
Proof.
  intros Hk Hb. cbn [makeDecoder]. rewrite Hb.
  destruct (Kind_eqb (Kind_of elem) KUint8) eqn:He; [ | reflexivity].
  destruct elem; cbn in *; congruence.
Qed.

Lemma makeDecoder_composite_slice isBasicType basicElementSize fuel
    (elem : rtype) :
  Kind_of elem <> KUint8 ->
  isBasicType (Kind_of elem) = false ->
  makeDecoder isBasicType basicElementSize fuel (TSlice elem)
  = makeCompositeSliceDecoder fuel elem
      (makeDecoder isBasicType basicElementSize fuel elem).
Proof.
  intros Hk Hb. cbn [makeDecoder]. rewrite Hb.
  destruct (Kind_eqb (Kind_of elem) KUint8) eqn:He; [ | reflexivity].
  destruct elem; cbn in *; congruence.
Qed.

(** X10. Through [makeDecoder]: for a slice of basic elements, an input
    whose length is not a multiple of the element size never decodes, and
    it is never reported as "input is too long" either. *)
Theorem basicSlice_ragged_never_decodes isBasicType basicElementSize fuel
    (elem : rtype) (dec : decoder) (input : bytes) (val : value) :
  Kind_of elem <> KUint8 ->
  isBasicType (Kind_of elem) = true ->
  makeDecoder isBasicType basicElementSize fuel (TSlice elem) = Ok dec ->
  (len input mod basicElementSize elem (Kind_of elem) <> 0)%nat ->
  (forall r, dec input val <> Ok r)
  /\ dec input val <> Err (errors_New "input is too long").
Proof.
  intros Hk Hb Hdec Hmod. rewrite makeDecoder_basic_slice in Hdec by done.
  pose proof (basicSliceDecoder_ragged _ _ _ _ _ _ val Hdec Hmod) as Hab.
  destruct (dec input val) as [r|e|p|]; cbn in Hab;
    split; try discriminate; try tauto.
  destruct Hab as [inner ->]. discriminate.
Qed.

Lemma basicSlice_ragged_never_decodes_run :
  exists dec,
    makeDecoder specIsBasicType specBasicElementSize 4 (TSlice TUint32)
    = Ok dec
    /\ (forall r, dec (mkBytes [x01; x02; x03; x04; x05] [x06; x07; x08])
                      (VSlice []) <> Ok r)
    /\ dec (mkBytes [x01; x02; x03; x04; x05] [x06; x07; x08]) (VSlice [])
       <> Err (errors_New "input is too long").
Proof.
  eexists. split; [reflexivity | ].
  apply (basicSlice_ragged_never_decodes specIsBasicType
           specBasicElementSize 4 TUint32);
    [discriminate | reflexivity | reflexivity | cbn; lia].
Defined.

(** X11. When the decoder of a slice of basic elements succeeds, the length
    of the input is a multiple of the element size, and the reported count
    and the length of the decoded slice are both
    [len(input) / elemSize]. *)
Theorem basicSlice_success_count isBasicType basicElementSize fuel
    (elem : rtype) (dec : decoder) (input : bytes) (val val' : value)
    (n : nat) :
  Kind_of elem <> KUint8 ->
  isBasicType (Kind_of elem) = true ->
  makeDecoder isBasicType basicElementSize fuel (TSlice elem) = Ok dec ->
  dec input val = Ok (n, val') ->
  (len input mod basicElementSize elem (Kind_of elem) = 0)%nat
  /\ n = (len input / basicElementSize elem (Kind_of elem))%nat
  /\ exists xs, val' = VSlice xs /\ length xs = n.
Proof.
  intros Hk Hb Hdec Hrun. rewrite makeDecoder_basic_slice in Hdec by done.
  destruct (basicSliceDecoder_count _ _ _ _ _ _ _ _ _ Hdec Hrun)
    as (_ & Hmod & Hn & Hlen).
  split; [exact Hmod | split; [exact Hn | ]].
  destruct val'; cbn in Hlen; try discriminate.
  - injection Hlen as Hlen. eauto.
  - revert Hdec Hrun. unfold makeBasicSliceDecoder.
    destruct (makeDecoder _ _ _ elem) as [elemDecoder | | |];
      cbn [mbind result_bind]; try discriminate.
    intros [= <-]. destruct (decide _); [discriminate | ].
    destruct val; cbn [MakeSlice_Copy mbind result_bind]; try discriminate.
    destruct (basicSliceLoop _ _ _ _ _ _ _ _) as [[d v] | | |] eqn:Hloop;
      cbn [mbind result_bind]; try discriminate.
    destruct (decide _); [discriminate | ].
    intros [= _ ->].
    apply basicSliceLoop_keeps_length in Hloop as (xs' & Hv & _).
    discriminate.
Qed.

Lemma basicSlice_success_count_run :
  exists dec,
    makeDecoder specIsBasicType specBasicElementSize 4 (TSlice TUint16)
    = Ok dec
    /\ dec (mkBytes [x01; x00; x02; x00] []) (VSlice [])
       = Ok (2%nat, VSlice [VUint 16 1; VUint 16 2])
    /\ (len (mkBytes [x01; x00; x02; x00] [])
        mod specBasicElementSize TUint16 (Kind_of TUint16) = 0)%nat
    /\ 2%nat = (len (mkBytes [x01; x00; x02; x00] [])
                / specBasicElementSize TUint16 (Kind_of TUint16))%nat.
Proof.
  eexists. split; [reflexivity | ].
  assert (Hrun : (fun dec : decoder =>
                    dec (mkBytes [x01; x00; x02; x00] []) (VSlice [])
                    = Ok (2%nat, VSlice [VUint 16 1; VUint 16 2]))
                 match makeDecoder specIsBasicType specBasicElementSize 4
                         (TSlice TUint16) with
                 | Ok d => d | _ => decodeBool end)
    by (vm_compute; reflexivity).
  split; [exact Hrun | ].
  destruct (basicSlice_success_count specIsBasicType specBasicElementSize 4
              TUint16 _ (mkBytes [x01; x00; x02; x00] []) (VSlice []) _ 2
              ltac:(discriminate) eq_refl eq_refl Hrun)
    as (Hmod & Hn & _).
  exact (conj Hmod Hn).
Defined.

(** X12. [Decode] into a fresh slice of uint64: an input of [8 * n] bytes
    gives the [n] little-endian values of its runs of 8 bytes, in order. *)
Theorem Decode_uint64_slice isBasicType basicElementSize fuel
    (input : bytes) (n : nat) :
  isBasicType KUint64 = true ->
  basicElementSize TUint64 KUint64 = 8%nat ->
  len input = (n * 8)%nat ->
  (n <= fuel)%nat ->
  Decode (makeDecoder isBasicType basicElementSize fuel) input
         (Some (TPtr (TSlice TUint64), VPtr (Some (VSlice []))))
  = Ok (VSlice ((fun j => VUint 64 (le_uint (chunk_at 8 (data input) j)))
                <$> seq 0 n)).
Proof.
  intros Hb Hs Hlen Hfuel.
  destruct (decode_uint64_slice isBasicType basicElementSize fuel input n
              Hb Hs Hlen Hfuel) as (dec & Hdec & Hrun).
  cbn [Decode Kind_of Kind_eqb negb Elem]. rewrite Hdec, Hrun. reflexivity.
Qed.

Lemma Decode_uint64_slice_run :
  Decode (makeDecoder specIsBasicType specBasicElementSize 2)
         (mkBytes [x01; x00; x00; x00; x00; x00; x00; x00;
                   x00; x01; x00; x00; x00; x00; x00; x00] [])
         (Some (TPtr (TSlice TUint64), VPtr (Some (VSlice []))))
  = Ok (VSlice [VUint 64 1; VUint 64 256]).
Proof.
  exact (Decode_uint64_slice specIsBasicType specBasicElementSize 2
           (mkBytes [x01; x00; x00; x00; x00; x00; x00; x00;
                     x00; x01; x00; x00; x00; x00; x00; x00] [])
           2 eq_refl eq_refl eq_refl ltac:(lia)).
Defined.

(** X13. An array of [n] uint64 is decoded from the first [8 * n] bytes of
    the backing array of the input: the decoder never consults
    [len(input)], so bytes past the length of the slice are read when the
    capacity allows, and bytes after the array are ignored. *)
Theorem decode_uint64_array isBasicType basicElementSize fuel
    (input : bytes) (n : nat) :
  basicElementSize (TArray n TUint64) KUint64 = 8%nat ->
  (n * 8 <= cap input)%nat ->
  exists dec,
    makeDecoder isBasicType basicElementSize fuel (TArray n TUint64) = Ok dec
    /\ dec input (zero (TArray n TUint64))
       = Ok ((n * 8)%nat,
             VArray ((fun j => VUint 64
                        (le_uint (chunk_at 8 (data input ++ spare input) j)))
                     <$> seq 0 n)).
Proof.
  intros Hsize Hcap. cbn [makeDecoder Kind_of Kind_eqb zero].
  eexists. split; [reflexivity | ].
  pose proof (arrayDecoder_reads_backing_array basicElementSize
                (TArray n TUint64) TUint64 decodeUint64 _ input n 8
                (fun d => VUint 64 (le_uint d)) eq_refl) as Hexact.
  cbn [Kind_of] in Hexact. rewrite Hsize in Hexact.
  cbn [Kind_of]. rewrite Hsize. apply Hexact; try lia.
  intros chunk Hchunk. cbn [zero]. rewrite decodeUint64_value.
  unfold len in Hchunk. rewrite take_ge by lia. reflexivity.
Qed.

Lemma decode_uint64_array_run :
  exists dec,
    makeDecoder specIsBasicType specBasicElementSize 0 (TArray 1 TUint64)
    = Ok dec
    /\ dec (mkBytes [x01; x02] [x03; x04; x05; x06; x07; x08])
           (VArray [VUint 64 0])
       = Ok (8%nat, VArray [VUint 64 0x0807060504030201]).
Proof.
  exact (decode_uint64_array specIsBasicType specBasicElementSize 0
           (mkBytes [x01; x02] [x03; x04; x05; x06; x07; x08]) 1
           eq_refl ltac:(cbn; lia)).
Defined.

(** X15. Through [makeDecoder]: whenever the decoder of a slice of composite
    elements succeeds on a fresh target, the count is [len(input) / 4] and
    every element is the zero value of its type: nothing was decoded. *)
Theorem compositeSlice_decodes_no_element isBasicType basicElementSize fuel
    (elem : rtype) (dec : decoder) (input : bytes) (val' : value) (n : nat) :
  Kind_of elem <> KUint8 ->
  isBasicType (Kind_of elem) = false ->
  makeDecoder isBasicType basicElementSize fuel (TSlice elem) = Ok dec ->
  dec input (VSlice []) = Ok (n, val') ->
  n = (len input / 4)%nat /\ val' = VSlice (replicate n (zero elem)).
Proof.
  intros Hk Hb Hdec Hrun. rewrite makeDecoder_composite_slice in Hdec by done.
  destruct (compositeSliceDecoder_result _ _ _ _ _ _ _ _ Hdec Hrun)
    as [Hn Hmake].
  split; [exact Hn | ].
  cbn in Hmake. injection Hmake as <-. unfold copy.
  rewrite take_nil. reflexivity.
Qed.

Lemma compositeSlice_decodes_no_element_run :
  exists dec,
    makeDecoder specIsBasicType specBasicElementSize 0
      (TSlice (TPtr (TSlice TUint8))) = Ok dec
    /\ dec (mkBytes [x04; x00; x00; x00; xaa; xbb; xcc; xdd; xee] [])
           (VSlice [])
       = Ok (2%nat, VSlice [VPtr None; VPtr None])
    /\ 2%nat = (len (mkBytes [x04; x00; x00; x00; xaa; xbb; xcc; xdd; xee] [])
                / 4)%nat.
Proof.
  eexists. split; [reflexivity | ].
  assert (Hrun : (fun dec : decoder =>
                    dec (mkBytes [x04; x00; x00; x00; xaa; xbb; xcc; xdd; xee]
                           []) (VSlice [])
                    = Ok (2%nat, VSlice [VPtr None; VPtr None]))
                 match makeDecoder specIsBasicType specBasicElementSize 0
                         (TSlice (TPtr (TSlice TUint8))) with
                 | Ok d => d | _ => decodeBool end)
    by (vm_compute; reflexivity).
  split; [exact Hrun | ].
  exact (proj1 (compositeSlice_decodes_no_element specIsBasicType
                  specBasicElementSize 0 (TPtr (TSlice TUint8)) _
                  (mkBytes [x04; x00; x00; x00; xaa; xbb; xcc; xdd; xee] [])
                  _ 2 ltac:(discriminate) eq_refl eq_refl Hrun)).
Defined.

(** X16. The offset loop of the composite decoder never progresses: entered
    with a positive [firstOffset], it fails with "offset out of bounds" when
    the offset exceeds the length of the input, and otherwise it is still
    running after any number of steps. *)
Theorem compositeSliceTail_never_progresses (fuel : nat) (input : bytes)
    (size : nat) (val : value) (firstOffset : Z) :
  0 < firstOffset ->
  compositeSliceTail fuel input size val firstOffset
  = if firstOffset >? Z.of_nat (len input)
    then match fuel with
         | O => Timeout
         | S _ => Err (errors_New "offset out of bounds")
         end
    else Timeout.
Proof.
  intros Hpos. unfold compositeSliceTail. rewrite offsetLoop_cases.
  rewrite (proj2 (Z.ltb_lt 0 firstOffset) Hpos).
  destruct fuel; destruct (firstOffset >? _); reflexivity.
Qed.

Lemma compositeSliceTail_never_progresses_run :
  0 < 4
  /\ compositeSliceTail 1000 (mkBytes [x04; x00; x00; x00; xaa] []) 1
       (VSlice [VSlice []]) 4
     = Timeout.
Proof.
  split; [lia | ].
  exact (compositeSliceTail_never_progresses 1000
           (mkBytes [x04; x00; x00; x00; xaa] []) 1 (VSlice [VSlice []]) 4
           ltac:(lia)).
Defined.

(** * Further properties of the experiment package *)

(** ** isPowerOf2 *)

Lemma isPowerOf2_pow2 (k : Z) : 0 <= k -> isPowerOf2 (2 ^ k) = true.
Proof.
  intros Hk. unfold isPowerOf2.
  assert (0 < 2 ^ k) by (apply Z.pow_pos_nonneg; lia).
  apply andb_true_intro. split.
  - apply negb_true_iff, Z.eqb_neq. lia.
  - apply Z.eqb_eq.
    replace (2 ^ k - 1) with (Z.ones k) by (rewrite Z.ones_equiv; lia).
    rewrite Z.land_ones by lia. apply Z.mod_same. lia.
Qed.

Lemma isPowerOf2_inv (n : Z) :
  0 <= n -> isPowerOf2 n = true -> n = 2 ^ Z.log2 n.
Proof.
  intros Hn Hp. unfold isPowerOf2 in Hp.
  apply andb_prop in Hp as [Hnz Hland].
  apply negb_true_iff, Z.eqb_neq in Hnz. apply Z.eqb_eq in Hland.
  assert (Hpos : 0 < n) by lia.
  destruct (Z.log2_spec n Hpos) as [Hlo Hhi].
  destruct (Z.eq_dec n (2 ^ Z.log2 n)) as [|Hne]; [assumption | exfalso].
  assert (Hlog : Z.log2 (n - 1) = Z.log2 n).
  { apply Z.log2_unique; [apply Z.log2_nonneg | lia]. }
  assert (Hone : 0 < 2 ^ Z.log2 n)
    by (apply Z.pow_pos_nonneg; [lia | apply Z.log2_nonneg]).
  assert (Hbit : Z.testbit (Z.land n (n - 1)) (Z.log2 n) = true).
  { rewrite Z.land_spec, (Z.bit_log2 n Hpos).
    rewrite <- Hlog. rewrite Z.bit_log2 by lia. reflexivity. }
  rewrite Hland, Z.bits_0 in Hbit. discriminate.
Qed.

(** X17. On a non-negative argument, [isPowerOf2] holds exactly for the
    powers of two. *)
Theorem isPowerOf2_spec (n : Z) :
  0 <= n ->
  (isPowerOf2 n = true <-> exists k, 0 <= k /\ n = 2 ^ k).
Proof.
  intros Hn. split.
  - intros Hp. exists (Z.log2 n). split; [apply Z.log2_nonneg | ].
    apply isPowerOf2_inv; assumption.
  - intros (k & Hk & ->). apply isPowerOf2_pow2, Hk.
Qed.

Lemma isPowerOf2_spec_run :
  0 <= 8 /\ (isPowerOf2 8 = true <-> exists k, 0 <= k /\ 8 = 2 ^ k).
Proof.
  split; [lia | ]. exact (isPowerOf2_spec 8 ltac:(lia)).
Defined.

(** ** merkleize *)

Section MerkleTree.

Local Open Scope nat_scope.

Variable hash : list byte -> list byte.












End MerkleTree.


(** ** pack *)

Section PackShape.

Local Open Scope nat_scope.

Lemma chunks_of_lengths (n : nat) (flat : list byte) :
  Forall (fun c => length c = 32) (chunks_of n flat).
Proof.
  revert flat. induction n as [|n IH]; intros flat; cbn [chunks_of].
  - constructor.
  - destruct flat as [|b flat]; constructor; [ | apply IH].
    rewrite length_app, length_replicate, length_take. lia.
Qed.

Lemma chunks_of_concat (n : nat) (flat : list byte) :
  length flat <= n ->
  exists k, k < 32 /\ concat (chunks_of n flat) = flat ++ replicate k x00.
Proof.
  revert flat. induction n as [|n IH]; intros flat Hn.
  - destruct flat; [ | cbn in Hn; lia]. exists 0. split; [lia | reflexivity].
  - cbn [chunks_of]. destruct flat as [|b flat].
    { exists 0. split; [lia | reflexivity]. }
    set (l := b :: flat) in *. cbn [concat].
    destruct (decide (length l <= 32)) as [Hshort | Hlong].
    + rewrite (drop_ge l) by lia. rewrite chunks_of_nil. cbn [concat].
      rewrite app_nil_r, take_ge by lia.
      exists (32 - length l). split; [subst l; cbn [length]; lia | reflexivity].
    + destruct (IH (drop 32 l)) as (k & Hk & ->).
      { rewrite length_drop. subst l. cbn [length] in *. lia. }
      exists k. split; [exact Hk | ].
      rewrite length_take. replace (32 - 32 `min` length l) with 0 by lia.
      cbn [replicate]. rewrite app_nil_r, (assoc_L (++)), take_drop.
      reflexivity.
Qed.

Lemma pack_spec_shape (items : list (list byte)) :
  exists k,
    k <= 32
    /\ Forall (fun c => length c = 32) (pack_spec items)
    /\ pack_spec items <> []
    /\ concat (pack_spec items) = concat items ++ replicate k x00.
Proof.
  unfold pack_spec. destruct (concat items) as [|b flat] eqn:Hflat.
  - exists 32. split; [lia | ]. split; [ | split; [discriminate | ]].
    + constructor; [reflexivity | constructor].
    + cbn. reflexivity.
  - destruct (chunks_of_concat (length (b :: flat)) (b :: flat))
      as (k & Hk & Hcat); [lia | ].
    exists k. split; [lia | ].
    split; [apply chunks_of_lengths | split; [ | exact Hcat]].
    cbn. discriminate.
Qed.

Lemma pack_shortcut (fuel : nat) (out : list (list byte)) :
  out <> [] ->
  Forall (fun c => length c = 32) out ->
  pack fuel out = Ok out.
Proof.
  intros Hne Hall. destruct out as [|first rest]; [done | ].
  apply Forall_cons in Hall as [Hfirst _]. unfold pack.
  destruct first as [|b first]; [discriminate | ].
  cbn [forallb length orb andb].
  rewrite (bool_decide_eq_false_2 (S _ = 0)) by lia.
  rewrite (bool_decide_eq_false_2 (b :: first = [])) by discriminate.
  cbn [orb andb lookup_total list_lookup_total].
  rewrite bool_decide_eq_true_2 by exact Hfirst. reflexivity.
Qed.

(** X19. Outside the shortcut, the chunks of [pack] are all 32 bytes long,
    there is at least one, and joined they are the bytes of the runs in
    order followed by at most 32 zero bytes. *)
Theorem pack_output_shape (fuel : nat) (items : list (list byte)) :
  (forall first rest, items = first :: rest -> length first <> 32) ->
  length (concat items) <= fuel ->
  32 <= fuel ->
  exists out k,
    pack fuel items = Ok out
    /\ Forall (fun c => length c = 32) out
    /\ out <> []
    /\ concat out = concat items ++ replicate k x00
    /\ k <= 32.
Proof.
  intros Hfirst Hfuel Hpad.
  destruct (pack_spec_shape items) as (k & Hk & Hall & Hne & Hcat).
  exists (pack_spec items), k.
  rewrite pack_refines_spec by assumption. auto.
Qed.

(** X20. [pack] is idempotent: packing its own result gives that result
    back. *)
Theorem pack_idempotent (fuel : nat) (items : list (list byte)) :
  length (concat items) <= fuel ->
  32 <= fuel ->
  exists out, pack fuel items = Ok out /\ pack fuel out = Ok out.
Proof.
  intros Hfuel Hpad.
  destruct (pack_spec_shape items) as (k & Hk & Hall & Hne & Hcat).
  destruct items as [|first rest].
  - exists (pack_spec []). rewrite pack_refines_spec by (done || cbn; lia).
    split; [reflexivity | apply pack_shortcut; assumption].
  - destruct (decide (length first = 32)) as [H32 | H32].
    + exists (first :: rest). unfold pack.
      destruct first as [|b first]; [discriminate | ].
      cbn [forallb length orb andb].
      rewrite (bool_decide_eq_false_2 (S _ = 0)) by lia.
      rewrite (bool_decide_eq_false_2 (b :: first = [])) by discriminate.
      cbn [orb andb lookup_total list_lookup_total].
      rewrite bool_decide_eq_true_2 by exact H32. split; reflexivity.
    + exists (pack_spec (first :: rest)).
      rewrite pack_refines_spec; try assumption.
      * split; [reflexivity | apply pack_shortcut; assumption].
      * intros f r [= <- <-]. exact H32.
Qed.

End PackShape.

Lemma pack_output_shape_run :
  exists out k,
    pack 32 [[x01; x02]; [x03]] = Ok out
    /\ Forall (fun c => length c = 32%nat) out
    /\ out <> []
    /\ concat out = concat [[x01; x02]; [x03]] ++ replicate k x00
    /\ (k <= 32)%nat.
Proof.
  apply (pack_output_shape 32 [[x01; x02]; [x03]]).
  - intros first rest [= <- <-]. cbn. lia.
  - cbn. lia.
  - lia.
Defined.

Lemma pack_idempotent_run :
  exists out,
    pack 32 [[x01; x02]; [x03]] = Ok out /\ pack 32 out = Ok out.
Proof.
  apply (pack_idempotent 32 [[x01; x02]; [x03]]); cbn; lia.
Defined.
